(** * Epinio: cluster convergence core and registry connection details

    A shallow embedding of
      - [helpers/kubernetes/cluster.go] (package [kubernetes]): the memoized
        cluster handle, platform detection, the condition functions and the
        bounded waits built on them;
      - the [registry] package: [ConnectionDetails] and the docker config
        derived from it.

    Everything the Go code reaches through a client library (the cluster API,
    the kubeconfig loader, the platform probes, the image reference parser)
    is a field of an interface class; the code of the repository itself is
    written out as executable definitions over those interfaces. *)

From Stdlib Require Import ZArith Lia Ascii.
From stdpp Require Import base list strings gmap.

Set Default Proof Using "Type".

(** Go's [(T, error)] where the value is only meaningful when the error is
    nil. *)
Inductive Result (E A : Type) : Type :=
| Ok (a : A)
| Err (e : E).
Arguments Ok {E A} a.
Arguments Err {E A} e.

(* ===================================================================== *)
(** * Package [registry] *)
(* ===================================================================== *)

Module Registry.

(** ** Byte-string helpers (Go strings are byte sequences, as [string] is) *)

(** [strings.HasPrefix s p]. *)
Fixpoint HasPrefix (p s : string) : bool :=
  match p, s with
  | EmptyString, _ => true
  | String a p', String b s' => if Ascii.eqb a b then HasPrefix p' s' else false
  | String _ _, EmptyString => false
  end.

(** Does [s] have [p] as a contiguous substring?  This is what
    [regexp.MatchString] computes for a pattern made of literals only. *)
Fixpoint Contains (p s : string) : bool :=
  HasPrefix p s ||
  match s with
  | EmptyString => false
  | String _ s' => Contains p s'
  end.

(** The pattern [127\.0\.0\.1] has no operator left once the dots are
    escaped: it matches exactly the strings containing the nine bytes
    below.  [regexp.Compile] cannot fail on it. *)
Definition localhostLiteral : string := "127.0.0.1".
Definition MatchString (s : string) : bool := Contains localhostLiteral s.

(** ** [encoding/base64]: [StdEncoding.EncodeToString] (RFC 4648, padded) *)

Definition encodeStd : string :=
  "ABCDEFGHIJKLMNOPQRSTUVWXYZabcdefghijklmnopqrstuvwxyz0123456789+/".

Definition sextet (n : nat) : ascii :=
  match String.get n encodeStd with
  | Some c => c
  | None => "="%char
  end.

Fixpoint EncodeToString (src : string) : string :=
  match src with
  | EmptyString => EmptyString
  | String a EmptyString =>
      let x := nat_of_ascii a in
      String (sextet (x / 4)) (String (sextet (x mod 4 * 16)) "==")
  | String a (String b EmptyString) =>
      let x := nat_of_ascii a in
      let y := nat_of_ascii b in
      String (sextet (x / 4))
        (String (sextet (x mod 4 * 16 + y / 16))
           (String (sextet (y mod 16 * 4)) "="))
  | String a (String b (String c rest)) =>
      let x := nat_of_ascii a in
      let y := nat_of_ascii b in
      let z := nat_of_ascii c in
      String (sextet (x / 4))
        (String (sextet (x mod 4 * 16 + y / 16))
           (String (sextet (y mod 16 * 4 + z / 64))
              (String (sextet (z mod 64)) (EncodeToString rest))))
  end.

(** ** Data model *)

Record RegistryCredentials := {
  URL : string;
  Username : string;
  Password : string;
}.

(** The Go struct has fields [Auth], [Username], [Password]; the last two
    are prefixed here because Rocq record projections share one name
    space. *)
Record ContainerRegistryAuth := {
  Auth : string;
  AuthUsername : string;
  AuthPassword : string;
}.

Record DockerConfigJSON := {
  Auths : gmap string ContainerRegistryAuth;
}.

Record ConnectionDetails := {
  Credentials : list RegistryCredentials;  (* field [RegistryCredentials] *)
  Namespace : string;
}.

(** [parser.Reference] of docker-parser, as far as [ExtractImageParts]
    looks at it. *)
Record Reference := {
  Registry : string;
  Name : string;
}.

(** ** Vocabulary of the statements *)

(** [s] has [p] as a contiguous substring. *)
Definition HasSubstring (p s : string) : Prop :=
  exists a b, s = a +:+ p +:+ b.

(** What the docker config holds for a credential [r]. *)
Definition entryFor (cfg : DockerConfigJSON) (r : RegistryCredentials) : Prop :=
  exists a,
    Auths cfg !! URL r = Some a /\
    AuthUsername a = Username r /\
    AuthPassword a = Password r /\
    Auth a = EncodeToString (Username r +:+ ":" +:+ Password r).

(** What the package takes from outside the repository. *)
Class Deps := {
  error : Type;
  (** [errors.New] *)
  errors_New : string -> error;
  (** [parser.Parse] of github.com/novln/docker-parser *)
  parser_Parse : string -> Result error Reference;
  (** [strings.Replace s old new n] *)
  strings_Replace : string -> string -> string -> Z -> string;
}.

Section Code.
Context `{D : Deps}.

(** ** [ConnectionDetails.DockerConfigJSON] *)

Definition makeAuth (r : RegistryCredentials) : ContainerRegistryAuth :=
  {| Auth := EncodeToString (Username r +:+ ":" +:+ Password r);
     AuthUsername := Username r;
     AuthPassword := Password r |}.

(** The [for _, r := range d.RegistryCredentials] loop, with [result] as the
    map built so far. *)
Fixpoint DockerConfigJSON_range (rs : list RegistryCredentials)
    (result : DockerConfigJSON) : Result error DockerConfigJSON :=
  match rs with
  | [] => Ok result
  | r :: rest =>
      if String.eqb (URL r) "" then Err (errors_New "url must be specified")
      else DockerConfigJSON_range rest
             {| Auths := <[URL r := makeAuth r]> (Auths result) |}
  end.

Definition ConnectionDetails_DockerConfigJSON (d : ConnectionDetails)
    : Result error DockerConfigJSON :=
  DockerConfigJSON_range (Credentials d) {| Auths := ∅ |}.

(** ** [PublicRegistryURL], [PrivateRegistryURL] *)

Fixpoint PublicRegistryURL_range (rs : list RegistryCredentials) : string :=
  match rs with
  | [] => ""
  | credentials :: rest =>
      if negb (MatchString (URL credentials)) then URL credentials
      else PublicRegistryURL_range rest
  end.

Definition PublicRegistryURL (d : ConnectionDetails) : string * option error :=
  (PublicRegistryURL_range (Credentials d), None).

Fixpoint PrivateRegistryURL_range (rs : list RegistryCredentials) : string :=
  match rs with
  | [] => ""
  | credentials :: rest =>
      if MatchString (URL credentials) then URL credentials
      else PrivateRegistryURL_range rest
  end.

Definition PrivateRegistryURL (d : ConnectionDetails) : string * option error :=
  (PrivateRegistryURL_range (Credentials d), None).

(** ** [ExtractImageParts], [ReplaceWithInternalRegistry] *)

Definition ExtractImageParts (imageURL : string)
    : string * string * option error :=
  match parser_Parse imageURL with
  | Err err => ("", "", Some err)
  | Ok ref => (Registry ref, Name ref, None)
  end.

Definition ReplaceWithInternalRegistry (d : ConnectionDetails)
    (imageURL : string) : string * option error :=
  match PrivateRegistryURL d with
  | (_, Some err) => (imageURL, Some err)
  | (privateURL, None) =>
      if String.eqb privateURL "" then (imageURL, None) (* no-op *)
      else
        match PublicRegistryURL d with
        | (_, Some err) => (imageURL, Some err)
        | (publicURL, None) =>
            match ExtractImageParts imageURL with
            | (_, _, Some err) => (imageURL, Some err)
            | (imageRegistryURL, _, None) =>
                if String.eqb imageRegistryURL publicURL
                then (strings_Replace imageURL imageRegistryURL privateURL (-1),
                      None)
                else (imageURL, None)
            end
        end
  end.

End Code.

(** A concrete environment to run the package on: errors are their
    messages, every image reference is rejected by the parser, and
    [strings.Replace] is never reached. *)
Definition demoDeps : Deps := {|
  error := string;
  errors_New := fun msg => msg;
  parser_Parse := fun _ => Err "invalid reference format";
  strings_Replace := fun s _ _ _ => s;
|}.

(** Two credentials for one registry, an earlier and a later one. *)
Definition twoLogins : ConnectionDetails :=
  {| Credentials :=
       [ {| URL := "registry.example.com"; Username := "old"; Password := "1" |};
         {| URL := "registry.example.com"; Username := "new"; Password := "2" |} ];
     Namespace := "apps" |}.

Definition oneLogin : ConnectionDetails :=
  {| Credentials :=
       [ {| URL := "registry.example.com"; Username := "admin"; Password := "s3cr3t" |} ];
     Namespace := "apps" |}.

(** The internal registry, reachable on localhost, next to its public
    name. *)
Definition localDetails : ConnectionDetails :=
  {| Credentials :=
       [ {| URL := "registry.example.com"; Username := "admin"; Password := "s3cr3t" |};
         {| URL := "127.0.0.1:30500"; Username := "admin"; Password := "s3cr3t" |} ];
     Namespace := "apps" |}.

(** Details with a credential that names no registry. *)
Definition namelessLogin : ConnectionDetails :=
  {| Credentials :=
       [ {| URL := ""; Username := "admin"; Password := "s3cr3t" |} ];
     Namespace := "apps" |}.

(** ** The connection details as a Kubernetes secret *)

Definition RegistrySecretNamespaceAnnotationKey : string :=
  "epinio.suse.org/registry-namespace".
Definition KubedNamespaceSelector : string := "kubed-sync=registry-creds".
Definition CredentialsSecretName : string := "registry-creds".

(** [corev1.Secret], as far as the package fills and reads it.  [Bytes]
    is the type of its payloads. *)
Record Secret (Bytes : Type) := {
  SecretName : string;                      (* ObjectMeta.Name *)
  Annotations : gmap string string;         (* ObjectMeta.Annotations *)
  Data : gmap string Bytes;
  StringData : gmap string Bytes;
  SecretType : string;                      (* Type *)
}.
Arguments SecretName {Bytes} _.
Arguments Annotations {Bytes} _.
Arguments Data {Bytes} _.
Arguments StringData {Bytes} _.
Arguments SecretType {Bytes} _.

(** The credential [GetConnectionDetails] makes of one entry. *)
Definition credentialOf (entry : string * ContainerRegistryAuth)
    : RegistryCredentials :=
  {| URL := entry.1; Username := AuthUsername entry.2;
     Password := AuthPassword entry.2 |}.

(** What [GetConnectionDetails] and [Store] take from outside: the
    cluster, [encoding/json], and the order in which one [range] over a Go
    map visits its entries, which the language leaves open. *)
Class SecretDeps `{D : Deps} := {
  W : Type;
  Bytes : Type;
  nilBytes : Bytes;
  (** [cluster.GetSecret] *)
  cluster_GetSecret : string -> string -> W -> Result error (Secret Bytes) * W;
  (** [cluster.Kubectl.CoreV1().Secrets(namespace).Create] *)
  Secrets_Create :
    string -> Secret Bytes -> W -> Result error (Secret Bytes) * W;
  (** [json.Marshal], [json.Unmarshal] at type [DockerConfigJSON] *)
  json_Marshal : DockerConfigJSON -> Result error Bytes;
  json_Unmarshal : Bytes -> Result error DockerConfigJSON;
  rangeAuths :
    gmap string ContainerRegistryAuth -> list (string * ContainerRegistryAuth);
  rangeAuths_perm : forall m, rangeAuths m ≡ₚ map_to_list m;
}.

Section Secrets.
Context `{S : SecretDeps}.

(** The [for url, auth := range dockerconfigjson.Auths] loop, appending to
    [details.RegistryCredentials]. *)
Fixpoint GetConnectionDetails_range
    (entries : list (string * ContainerRegistryAuth))
    (credentials : list RegistryCredentials) : list RegistryCredentials :=
  match entries with
  | [] => credentials
  | (url, auth) :: rest =>
      GetConnectionDetails_range rest
        (credentials ++
         [ {| URL := url; Username := AuthUsername auth;
              Password := AuthPassword auth |} ])
  end.

(** A key missing from [secret.Data] reads as a nil slice, one missing
    from the annotations as the empty string. *)
Definition GetConnectionDetails (secretNamespace secretName : string) (w : W)
    : Result error ConnectionDetails * W :=
  match cluster_GetSecret secretNamespace secretName w with
  | (Err err, w') => (Err err, w')
  | (Ok secret, w') =>
      match json_Unmarshal
              (default nilBytes (Data secret !! ".dockerconfigjson")) with
      | Err err => (Err err, w')
      | Ok dockerconfigjson =>
          (Ok {| Credentials :=
                   GetConnectionDetails_range
                     (rangeAuths (Auths dockerconfigjson)) [];
                 Namespace :=
                   default ""
                     (Annotations secret !! RegistrySecretNamespaceAnnotationKey) |},
           w')
      end
  end.

(** The secret [Store] asks the cluster to create. *)
Definition storeSecret (d : ConnectionDetails) (secretName : string)
    (dockerconfigjsonStr : Bytes) : Secret Bytes :=
  {| SecretName := secretName;
     Annotations :=
       <[RegistrySecretNamespaceAnnotationKey := Namespace d]>
         (<["kubed.appscode.com/sync" := KubedNamespaceSelector]> ∅);
     Data := ∅;
     StringData := <[".dockerconfigjson" := dockerconfigjsonStr]> ∅;
     SecretType := "kubernetes.io/dockerconfigjson" |}.

Definition Store (d : ConnectionDetails) (secretNamespace secretName : string)
    (w : W) : Result error (Secret Bytes) * W :=
  match ConnectionDetails_DockerConfigJSON d with
  | Err err => (Err err, w)
  | Ok dockerconfigjson =>
      match json_Marshal dockerconfigjson with
      | Err err => (Err err, w)
      | Ok dockerconfigjsonStr =>
          match Secrets_Create secretNamespace
                  (storeSecret d secretName dockerconfigjsonStr) w with
          | (Err err, w') => (Err err, w')
          | (Ok createdSecret, w') => (Ok createdSecret, w')
          end
      end
  end.

End Secrets.

(** A cluster that is a table of secrets, where a created secret is read
    back with its string data as data; payloads are the decoded
    documents themselves. *)
Abbreviation demoBytes := (option DockerConfigJSON).
Abbreviation demoW := (gmap (string * string) (Secret demoBytes)).

Definition demoGetSecret (namespace name : string) (w : demoW)
    : Result string (Secret demoBytes) * demoW :=
  match w !! (namespace, name) with
  | Some secret => (Ok secret, w)
  | None => (Err "NotFound", w)
  end.

Definition demoCreate (namespace : string) (secret : Secret demoBytes)
    (w : demoW) : Result string (Secret demoBytes) * demoW :=
  match w !! (namespace, SecretName secret) with
  | Some _ => (Err "AlreadyExists", w)
  | None =>
      let kept :=
        {| SecretName := SecretName secret;
           Annotations := Annotations secret;
           Data := StringData secret ∪ Data secret;
           StringData := ∅;
           SecretType := SecretType secret |} in
      (Ok kept, <[(namespace, SecretName secret) := kept]> w)
  end.

Definition demoUnmarshal (bytes : demoBytes) : Result string DockerConfigJSON :=
  match bytes with
  | Some cfg => Ok cfg
  | None => Err "unexpected end of JSON input"
  end.

Definition demoSecretDeps : @SecretDeps demoDeps :=
  @Build_SecretDeps demoDeps demoW demoBytes None demoGetSecret demoCreate
    (fun cfg => Ok (Some cfg)) demoUnmarshal map_to_list
    (fun m => reflexivity (map_to_list m)).

End Registry.

(* ===================================================================== *)
(** * Package [kubernetes] (helpers/kubernetes/cluster.go) *)
(* ===================================================================== *)

Module Kubernetes.

(** [time.Duration]: a count of nanoseconds. *)
Definition Duration := Z.
Definition Second : Duration := 1000000000%Z.

(** The platform strategies.  [SupportedPlatforms] lists the first four;
    [generic] is the fallback. *)
Inductive Platform := kind | k3s | ibm | minikube | generic.

#[global] Instance Platform_eq_dec : EqDecision Platform.
Proof. solve_decision. Defined.

Definition SupportedPlatforms : list Platform := [kind; k3s; ibm; minikube].

(** ** API objects, as far as the conditions read them *)

(** [apibatchv1.JobConditionType], [v1.ConditionStatus] and their
    apiextensions counterparts are string types. *)
Definition JobFailed : string := "Failed".
Definition JobComplete : string := "Complete".
Definition ConditionTrue : string := "True".
Definition Established : string := "Established".

Record Condition := {
  Type_ : string;
  Status : string;
}.

Record Job := { JobConditions : list Condition }.          (* job.Status.Conditions *)
Record CustomResourceDefinition := { CRDConditions : list Condition }.
Record ListOptions := { LabelSelector : string }.

(** ** Everything observable the code does to the outside *)

Inductive Event :=
| CallKubeConfig
| CallNewForConfig
| CallDetect (p : Platform) (detected : bool)
| CallLoad (p : Platform)
| CallBatchNewForConfig
| CallApiextensionsNewForConfig
| CallJobsGet (namespace name : string)
| CallCRDGet (name : string)
| CallSecretsGet (namespace name : string)
| CallPodsList (namespace selector : string)
| CallNamespacesGet (name : string)
| Tick (interval : Duration)
| UIProgress (msg : string)
| UIStop.

#[global] Instance Event_eq_dec : EqDecision Event.
Proof. solve_decision. Defined.

(** ** The outside: client libraries and the cluster behind them

    [World] is the state of everything outside the process (the cluster,
    the kubeconfig on disk, the wall clock).  Every call may observe and
    change it, so a resource can appear or vanish between two reads. *)
Class Env := {
  World : Type;
  error : Type;
  RestConfig : Type;
  Clientset : Type;                (* *kubernetes.Clientset *)
  BatchV1Client : Type;            (* *typedbatchv1.BatchV1Client *)
  ApiextensionsClientset : Type;   (* *apiextensions.Clientset *)
  Secret : Type;                   (* *v1.Secret *)
  Pod : Type;
  nilRestConfig : RestConfig;
  nilClientset : Clientset;

  (** [apierrors.IsNotFound] *)
  IsNotFound : error -> bool;

  (** [kubeconfig.KubeConfig] *)
  kubeconfig_KubeConfig : World -> Result error RestConfig * World;
  (** [restclient.CopyConfig] *)
  restclient_CopyConfig : RestConfig -> RestConfig;
  (** [config.WarningHandler = restclient.NoWarnings{}] *)
  setNoWarnings : RestConfig -> RestConfig;
  (** [kubernetes.NewForConfig] *)
  kubernetes_NewForConfig : RestConfig -> World -> Result error Clientset * World;
  (** [Platform.Detect], [Platform.Load] *)
  Detect : Platform -> Clientset -> World -> bool * World;
  Load : Platform -> Clientset -> World -> option error * World;
  (** [typedbatchv1.NewForConfig], [apiextensions.NewForConfig] *)
  typedbatchv1_NewForConfig : RestConfig -> World -> Result error BatchV1Client * World;
  apiextensions_NewForConfig :
    RestConfig -> World -> Result error ApiextensionsClientset * World;

  (** [client.Jobs(namespace).Get(ctx, name, ...)] *)
  Jobs_Get : BatchV1Client -> string -> string -> World -> Result error Job * World;
  (** [clientset.ApiextensionsV1().CustomResourceDefinitions().Get] *)
  CustomResourceDefinitions_Get :
    ApiextensionsClientset -> string -> World ->
    Result error CustomResourceDefinition * World;
  (** [Kubectl.CoreV1().Secrets(namespace).Get]: pointer and error, both
      handed on as they come *)
  Secrets_Get :
    Clientset -> string -> string -> World -> (option Secret * option error) * World;
  (** [Kubectl.CoreV1().Pods(namespace).List] *)
  Pods_List : Clientset -> string -> ListOptions -> World -> Result error (list Pod) * World;
  (** [Kubectl.CoreV1().Namespaces().Get]; the object is discarded *)
  Namespaces_Get : Clientset -> string -> World -> Result error unit * World;

  (** The outside while the process sleeps for one polling interval. *)
  elapse : Duration -> World -> World;
  (** The timeout error of the poller, carrying the time waited. *)
  ErrWaitTimeout : Duration -> error;
}.

Section Code.
Context `{E : Env}.

(** ** Process state *)

Record Cluster := {
  Kubectl : Clientset;
  RestConfig_ : RestConfig;       (* field [RestConfig] *)
  platform : option Platform;     (* nil until detection or fallback *)
}.

(** [&Cluster{}] *)
Definition zeroCluster : Cluster :=
  {| Kubectl := nilClientset; RestConfig_ := nilRestConfig; platform := None |}.

(** A [*Cluster] is an index into [heap]. *)
Definition ptr := nat.

Record State := {
  world : World;
  trace : list Event;
  heap : list Cluster;
  clusterMemo : option ptr;       (* [var clusterMemo *Cluster] *)
  secretVar : option Secret;      (* [var secret] of a running WaitForSecret,
                                     written by its closure *)
}.

Definition M (A : Type) : Type := State -> A * State.

Definition ret {A} (a : A) : M A := fun st => (a, st).
Definition bind {A B} (m : M A) (k : A -> M B) : M B :=
  fun st => let '(a, st') := m st in k a st'.

Notation "'let*' x := m 'in' k" := (bind m (fun x => k))
  (at level 10, x name, m at level 100, k at level 200).
Notation "'run' m 'in' k" := (bind m (fun _ => k))
  (at level 10, m at level 100, k at level 200).

(** The state after an outside step: the world it left and its record. *)
Definition observed (w : World) (ev : Event) (st : State) : State :=
  {| world := w; trace := trace st ++ [ev]; heap := heap st;
     clusterMemo := clusterMemo st; secretVar := secretVar st |}.

(** An outside call: run it on the world and record it. *)
Definition call {A} (ev : A -> Event) (f : World -> A * World) : M A :=
  fun st => let '(a, w) := f (world st) in (a, observed w (ev a) st).

Definition emit (ev : Event) : M unit :=
  fun st => (tt, observed (world st) ev st).

Definition sleep (d : Duration) : M unit :=
  fun st => (tt, observed (elapse d (world st)) (Tick d) st).

Definition getMemo : M (option ptr) := fun st => (clusterMemo st, st).
Definition setMemo (p : ptr) : M unit :=
  fun st =>
    (tt, {| world := world st; trace := trace st; heap := heap st;
            clusterMemo := Some p; secretVar := secretVar st |}).

Definition setSecretVar (s : option Secret) : M unit :=
  fun st =>
    (tt, {| world := world st; trace := trace st; heap := heap st;
            clusterMemo := clusterMemo st; secretVar := s |}).
Definition getSecretVar : M (option Secret) := fun st => (secretVar st, st).

Definition new (c : Cluster) : M ptr :=
  fun st =>
    (length (heap st),
     {| world := world st; trace := trace st; heap := heap st ++ [c];
        clusterMemo := clusterMemo st; secretVar := secretVar st |}).

(** Reading through a pointer; every pointer the code below dereferences
    comes from [new]. *)
Definition deref (p : ptr) : M Cluster :=
  fun st => (default zeroCluster (heap st !! p), st).

Definition update (p : ptr) (f : Cluster -> Cluster) : M unit :=
  fun st =>
    (tt, {| world := world st; trace := trace st;
            heap := alter f p (heap st);
            clusterMemo := clusterMemo st; secretVar := secretVar st |}).

Definition setRestConfig (r : RestConfig) (c : Cluster) : Cluster :=
  {| Kubectl := Kubectl c; RestConfig_ := r; platform := platform c |}.
Definition setKubectl (k : Clientset) (c : Cluster) : Cluster :=
  {| Kubectl := k; RestConfig_ := RestConfig_ c; platform := platform c |}.
Definition setPlatform (p : Platform) (c : Cluster) : Cluster :=
  {| Kubectl := Kubectl c; RestConfig_ := RestConfig_ c; platform := Some p |}.

(** ** [detectPlatform] *)

(** [for _, p := range ps { if p.Detect(ctx, c.Kubectl) { c.platform = p; return } }] *)
Fixpoint detectPlatform_range (c : ptr) (ps : list Platform) : M unit :=
  match ps with
  | [] => ret tt
  | p :: rest =>
      let* cl := deref c in
      let* detected := call (CallDetect p) (Detect p (Kubectl cl)) in
      if detected : bool then update c (setPlatform p)
      else detectPlatform_range c rest
  end.

Definition detectPlatform (c : ptr) : M unit :=
  detectPlatform_range c SupportedPlatforms.

(** ** [GetCluster] *)

Definition GetCluster : M (option ptr * option error) :=
  let* memo := getMemo in
  match memo with
  | Some p => ret (Some p, None)
  | None =>
      let* c := new zeroCluster in
      let* r := call (fun _ => CallKubeConfig) kubeconfig_KubeConfig in
      match r with
      | Err err => ret (None, Some err)
      | Ok restConfig =>
          let config := setNoWarnings (restclient_CopyConfig restConfig) in
          run update c (setRestConfig restConfig) in
          let* r := call (fun _ => CallNewForConfig) (kubernetes_NewForConfig config) in
          match r with
          | Err err => ret (None, Some err)
          | Ok clientset =>
              run update c (setKubectl clientset) in
              run detectPlatform c in
              let* cl := deref c in
              let* p := match platform cl with
                        | None => run update c (setPlatform generic) in ret generic
                        | Some p => ret p
                        end in
              let* err := call (fun _ => CallLoad p) (Load p clientset) in
              match err with
              | Some err => ret (None, Some err)
              | None => run setMemo c in ret (Some c, None)
              end
          end
      end
  end.

(** [c.GetPlatform()], for a handle returned by [GetCluster]. *)
Definition GetPlatform (c : ptr) : M (option Platform) :=
  let* cl := deref c in ret (platform cl).

(** ** Resource accessors of the handle *)

(** [*v1.PodList] *)
Record PodList := { Items : list Pod }.

Definition ListPods (c : Cluster) (namespace selector : string)
    : M (Result error PodList) :=
  let listOptions := {| LabelSelector := "" |} in
  let listOptions :=
    if (0 <? String.length selector)%nat then {| LabelSelector := selector |}
    else listOptions in
  let* r := call (fun _ => CallPodsList namespace (LabelSelector listOptions))
                 (Pods_List (Kubectl c) namespace listOptions) in
  match r with
  | Err err => ret (Err err)
  | Ok items => ret (Ok {| Items := items |})
  end.

Definition GetSecret (c : Cluster) (namespace name : string)
    : M (option Secret * option error) :=
  call (fun _ => CallSecretsGet namespace name)
       (Secrets_Get (Kubectl c) namespace name).

Definition NamespaceExists (c : Cluster) (namespaceName : string)
    : M (bool * option error) :=
  let* r := call (fun _ => CallNamespacesGet namespaceName)
                 (Namespaces_Get (Kubectl c) namespaceName) in
  match r with
  | Err err =>
      if IsNotFound err then ret (false, None)
      else ret (false, Some err)
  | Ok _ => ret (true, None)
  end.

(** ** Condition functions *)

(** [wait.ConditionFunc]: [func() (done bool, err error)]. *)
Definition ConditionFunc := M (bool * option error).

(** The scan of [job.Status.Conditions] in [IsJobFailed]. *)
Fixpoint IsJobFailed_range (conditions : list Condition) : bool :=
  match conditions with
  | [] => false
  | condition :: rest =>
      if String.eqb (Type_ condition) JobFailed &&
         String.eqb (Status condition) ConditionTrue
      then true
      else IsJobFailed_range rest
  end.

(** [IsJobFailed] builds its own batch client on every call. *)
Definition IsJobFailed (c : Cluster) (jobName namespace : string)
    : M (bool * option error) :=
  let* r := call (fun _ => CallBatchNewForConfig)
                 (typedbatchv1_NewForConfig (RestConfig_ c)) in
  match r with
  | Err err => ret (false, Some err)
  | Ok client =>
      let* r := call (fun _ => CallJobsGet namespace jobName)
                     (Jobs_Get client namespace jobName) in
      match r with
      | Err err => ret (false, Some err)
      | Ok job => ret (IsJobFailed_range (JobConditions job), None)
      end
  end.

(** The scan of [job.Status.Conditions] in [IsJobDone]. *)
Fixpoint IsJobDone_range (conditions : list Condition) : bool :=
  match conditions with
  | [] => false
  | condition :: rest =>
      if String.eqb (Status condition) ConditionTrue &&
         (String.eqb (Type_ condition) JobFailed ||
          String.eqb (Type_ condition) JobComplete)
      then true
      else IsJobDone_range rest
  end.

Definition IsJobDone (c : Cluster) (client : BatchV1Client)
    (jobName namespace : string) : ConditionFunc :=
  let* r := call (fun _ => CallJobsGet namespace jobName)
                 (Jobs_Get client namespace jobName) in
  match r with
  | Err err => ret (false, Some err)
  | Ok job => ret (IsJobDone_range (JobConditions job), None)
  end.

Definition NamespaceDoesNotExist (c : Cluster) (namespaceName : string)
    : ConditionFunc :=
  let* r := NamespaceExists c namespaceName in
  let '(exists_, err) := r in
  ret (negb exists_, err).

Definition PodDoesNotExist (c : Cluster) (namespace selector : string)
    : ConditionFunc :=
  let* r := ListPods c namespace selector in
  match r with
  | Err _ => ret (true, None)
  | Ok podList =>
      if (0 <? length (Items podList))%nat then ret (false, None)
      else ret (true, None)
  end.

(** The two closures of [WaitForCRD].  The first one stores the read's
    error in the enclosing function's [err]; that variable is overwritten
    by the result of the poll before it is read again. *)
Definition crdExists (clientset : ApiextensionsClientset) (CRDName : string)
    : ConditionFunc :=
  let* r := call (fun _ => CallCRDGet CRDName)
                 (CustomResourceDefinitions_Get clientset CRDName) in
  match r with
  | Err err =>
      if IsNotFound err then ret (false, None)
      else ret (false, Some err)
  | Ok _ => ret (true, None)
  end.

Fixpoint crdEstablished_range (conditions : list Condition) : bool :=
  match conditions with
  | [] => false
  | cond :: rest =>
      if String.eqb (Type_ cond) Established &&
         String.eqb (Status cond) ConditionTrue
      then true
      else crdEstablished_range rest
  end.

Definition crdEstablished (clientset : ApiextensionsClientset)
    (CRDName : string) : ConditionFunc :=
  let* r := call (fun _ => CallCRDGet CRDName)
                 (CustomResourceDefinitions_Get clientset CRDName) in
  match r with
  | Err err => ret (false, Some err)
  | Ok crd => ret (crdEstablished_range (CRDConditions crd), None)
  end.

(** The closure of [WaitForSecret]; it assigns the enclosing [secret]. *)
Definition secretPresent (c : Cluster) (namespace secretName : string)
    : ConditionFunc :=
  let* r := GetSecret c namespace secretName in
  let '(secret, err) := r in
  run setSecretVar secret in
  match err with
  | Some err =>
      if IsNotFound err then ret (false, None)
      else ret (false, Some err)
  | None => ret (true, None)
  end.

(** ** The poller *)

(** Modelled from the spec: [wait.PollImmediate] of
    k8s.io/apimachinery/pkg/util/wait, which is not part of the sources.
    Section 4.1: the condition is invoked immediately; if it is not
    satisfied it is invoked again at each interval boundary, until it is
    satisfied, returns an error, or the elapsed time exceeds the timeout.
    The result is success, the condition's error unchanged, or a timeout
    error carrying the elapsed duration.  [n] counts the interval
    boundaries still inside the timeout and [elapsed] the time slept so
    far.  Following the contract of the condition function, an error ends
    the poll whatever the boolean next to it. *)
Fixpoint poll (n : nat) (elapsed interval : Duration)
    (condition : ConditionFunc) : M (option error) :=
  let* r := condition in
  match r with
  | (_, Some err) => ret (Some err)
  | (true, None) => ret None
  | (false, None) =>
      match n with
      | O => ret (Some (ErrWaitTimeout elapsed))
      | S n' =>
          run sleep interval in
          poll n' (elapsed + interval)%Z interval condition
      end
  end.

(** Number of interval boundaries [interval, 2*interval, ...] that do not
    exceed [timeout]. *)
Definition boundaries (interval timeout : Duration) : nat :=
  Z.to_nat (timeout / interval).

Definition PollImmediate (interval timeout : Duration)
    (condition : ConditionFunc) : M (option error) :=
  poll (boundaries interval timeout) 0%Z interval condition.

(** ** Waits *)

(** The caller's [*termui.UI]; progress reporting never affects control
    flow. *)
Inductive UI := termUI.

Definition Progressf (ui : UI) (msg : string) : M unit := emit (UIProgress msg).
Definition Stop : M unit := emit UIStop.

(** [ui] is dereferenced without a nil check, so it is a [UI] here. *)
Definition WaitForCRD (c : Cluster) (ui : UI) (CRDName : string)
    (timeout : Duration) : M (option error) :=
  run Progressf ui ("Waiting for CRD " +:+ CRDName +:+ " to be ready to use") in
  let* r := call (fun _ => CallApiextensionsNewForConfig)
                 (apiextensions_NewForConfig (RestConfig_ c)) in
  match r with
  | Err err => run Stop in ret (Some err)
  | Ok clientset =>
      let* err := PollImmediate Second timeout (crdExists clientset CRDName) in
      match err with
      | Some err => run Stop in ret (Some err)
      | None =>
          (* Now wait until the CRD is "established" *)
          let* err :=
            PollImmediate Second timeout (crdEstablished clientset CRDName) in
          run Stop in ret err
      end
  end.

Definition WaitForSecret (c : Cluster) (namespace secretName : string)
    (timeout : Duration) : M (option Secret * option error) :=
  run setSecretVar None in
  let* waitErr :=
    PollImmediate Second timeout (secretPresent c namespace secretName) in
  let* secret := getSecretVar in
  ret (secret, waitErr).

Definition WaitForJobDone (c : Cluster) (namespace jobName : string)
    (timeout : Duration) : M (option error) :=
  let* r := call (fun _ => CallBatchNewForConfig)
                 (typedbatchv1_NewForConfig (RestConfig_ c)) in
  match r with
  | Err err => ret (Some err)
  | Ok client =>
      PollImmediate Second timeout (IsJobDone c client jobName namespace)
  end.

Definition WaitForNamespaceMissing (c : Cluster) (ui : option UI)
    (namespace : string) (timeout : Duration) : M (option error) :=
  match ui with
  | Some ui =>
      run Progressf ui ("Waiting for namespace " +:+ namespace +:+ " to be deleted") in
      let* err :=
        PollImmediate Second timeout (NamespaceDoesNotExist c namespace) in
      run Stop in ret err
  | None => PollImmediate Second timeout (NamespaceDoesNotExist c namespace)
  end.

Definition WaitForPodBySelectorMissing (c : Cluster)
    (namespace selector : string) (timeout : Duration) : M (option error) :=
  PollImmediate Second timeout (PodDoesNotExist c namespace selector).

(** ** Evaluations of a poll

    [reaches interval condition n st m s]: a poll that evaluates
    [condition] in state [st] with [n] interval boundaries left goes on to
    evaluate it in state [s] with [m] boundaries left (every evaluation in
    between having answered "not yet"). *)
Inductive reaches (interval : Duration) (condition : ConditionFunc)
    : nat -> State -> nat -> State -> Prop :=
| reaches_here n st : reaches interval condition n st n st
| reaches_later n st st' m s :
    condition st = ((false, None), st') ->
    reaches interval condition n (snd (sleep interval st')) m s ->
    reaches interval condition (S n) st m s.

(** ** Vocabulary of the statements *)

(** Some status condition is [True] with type [Complete] or [Failed]. *)
Definition jobFinished (job : Job) : Prop :=
  Exists (fun condition =>
            Status condition = "True" /\
            (Type_ condition = "Complete" \/ Type_ condition = "Failed"))
         (JobConditions job).

(** The state in which the first poll of [WaitForCRD] starts: progress
    announced, apiextensions client built leaving the world as [w0]. *)
Definition crdWaitStart (CRDName : string) (w0 : World) (st : State) : State :=
  observed w0 CallApiextensionsNewForConfig
    (observed (world st)
       (UIProgress ("Waiting for CRD " +:+ CRDName +:+ " to be ready to use")) st).

(** Probes answered "no". *)
Definition misses (ps : list Platform) : list Event :=
  map (fun q => CallDetect q false) ps.

(** [probed ps evs found]: over the strategy list [ps], the probes recorded
    are [evs] and the strategy chosen is [found].  Either some strategy [p]
    answered yes after every strategy before it answered no, and nothing
    after [p] was probed; or all of [ps] answered no. *)
Inductive probed (ps : list Platform) : list Event -> option Platform -> Prop :=
| probed_hit ps1 p ps2 :
    ps = ps1 ++ p :: ps2 ->
    probed ps (misses ps1 ++ [CallDetect p true]) (Some p)
| probed_none : probed ps (misses ps) None.

(** The heap after detection on the handle at [c]. *)
Definition detected (c : ptr) (found : option Platform) (h : list Cluster)
    : list Cluster :=
  match found with
  | Some p => alter (setPlatform p) c h
  | None => h
  end.

(** The outside after the probes of [ps] on clientset [k], run in order
    from [w], all answered no; [None] when one of them answers yes. *)
Fixpoint allMiss (k : Clientset) (ps : list Platform) (w : World)
    : option World :=
  match ps with
  | [] => Some w
  | p :: rest =>
      match Detect p k w with
      | (true, _) => None
      | (false, w') => allMiss k rest w'
      end
  end.

(** [selects k ps w evs found w']: probing the strategies [ps] in order on
    clientset [k], from the outside [w], selects [found], records [evs]
    and leaves the outside [w'].  Either [p] is the first strategy whose
    [Detect] answers true (every strategy before it answers false, each
    probe running in the outside the one before it left), and nothing
    after [p] is probed; or the [Detect] of every strategy answers false
    and none is selected. *)
Inductive selects (k : Clientset) (ps : list Platform) (w : World)
    : list Event -> option Platform -> World -> Prop :=
| selects_first ps1 p ps2 w1 w' :
    ps = ps1 ++ p :: ps2 ->
    allMiss k ps1 w = Some w1 ->
    Detect p k w1 = (true, w') ->
    selects k ps w (misses ps1 ++ [CallDetect p true]) (Some p) w'
| selects_none w' :
    allMiss k ps w = Some w' ->
    selects k ps w (misses ps) None w'.

(** The probes as a function of the outside, without the process state. *)
Fixpoint probes (k : Clientset) (ps : list Platform) (w : World)
    : list Event * option Platform * World :=
  match ps with
  | [] => ([], None, w)
  | p :: rest =>
      match Detect p k w with
      | (true, w') => ([CallDetect p true], Some p, w')
      | (false, w') =>
          let '(evs, found, w'') := probes k rest w' in
          (CallDetect p false :: evs, found, w'')
      end
  end.

(** The handle [GetCluster] publishes. *)
Definition built (rc : RestConfig) (cs : Clientset) (p : Platform) : Cluster :=
  {| Kubectl := cs; RestConfig_ := rc; platform := Some p |}.

(** The platforms whose [Load] a trace records, in order. *)
Definition loads (evs : list Event) : list Platform :=
  omap (fun ev => match ev with CallLoad p => Some p | _ => None end) evs.

(** Some status condition is [True] with type [Failed]. *)
Definition jobFailed (job : Job) : Prop :=
  Exists (fun condition => Type_ condition = "Failed" /\ Status condition = "True")
         (JobConditions job).

(** The same outside and captured variable, seen from a process with
    other earlier records [pre], another heap and another memo. *)
Definition reframe (pre : list Event) (h : list Cluster) (memo : option ptr)
    (st : State) : State :=
  {| world := world st; trace := pre ++ trace st; heap := h;
     clusterMemo := memo; secretVar := secretVar st |}.

(** A computation that looks at nothing of the process but the outside
    and the captured variable, appends its records to those made before,
    and hands heap and memo on as they are. *)
Definition Framed {A} (m : M A) : Prop :=
  forall pre h memo st,
    m (reframe pre h memo st) = (fst (m st), reframe pre h memo (snd (m st))).

(** The state with an empty record: what a run adds is what it records
    from there. *)
Definition unrecorded (st : State) : State :=
  {| world := world st; trace := []; heap := heap st;
     clusterMemo := clusterMemo st; secretVar := secretVar st |}.

End Code.

(** ** A concrete outside to run the code against

    The world is a clock.  The kubeconfig is missing at time 0 and present
    afterwards; the cluster is a k3s cluster; the job completes and the
    secret appears at time 2; the CRD never appears; the namespace is gone
    from time 1 on; listing pods is forbidden. *)
Definition demoEnv : Env := {|
  World := nat;
  error := string;
  RestConfig := string;
  Clientset := string;
  BatchV1Client := string;
  ApiextensionsClientset := string;
  Secret := string;
  Pod := string;
  nilRestConfig := "";
  nilClientset := "";
  IsNotFound := fun e => String.eqb e "NotFound";
  kubeconfig_KubeConfig := fun w =>
    match w with
    | O => (Err "kubeconfig: no such file", 1)
    | S _ => (Ok "kubeconfig", w)
    end;
  restclient_CopyConfig := fun r => r;
  setNoWarnings := fun r => r +:+ "+nowarnings";
  kubernetes_NewForConfig := fun r w => (Ok ("clientset:" +:+ r), w);
  Detect := fun p _ w => (bool_decide (p = k3s), w);
  Load := fun _ _ w => (None, w);
  typedbatchv1_NewForConfig := fun r w => (Ok ("batch:" +:+ r), w);
  apiextensions_NewForConfig := fun r w => (Ok ("apiext:" +:+ r), w);
  Jobs_Get := fun _ _ _ w =>
    (Ok {| JobConditions :=
             if (w <? 2)%nat then []
             else [ {| Type_ := "Complete"; Status := "True" |} ] |}, w);
  CustomResourceDefinitions_Get := fun _ _ w => (Err "NotFound", w);
  Secrets_Get := fun _ _ name w =>
    if (w <? 2)%nat then ((None, Some "NotFound"), w)
    else ((Some name, None), w);
  Pods_List := fun _ _ _ w => (Err "Forbidden", w);
  Namespaces_Get := fun _ _ w =>
    if (w <? 1)%nat then (Ok tt, w) else (Err "NotFound", w);
  elapse := fun _ w => S w;
  ErrWaitTimeout := fun _ => "timed out waiting for the condition";
|}.

(** The same outside, except that the CRD is there and established from
    time 1 on. *)
Definition demoReady : Env := {|
  World := nat;
  error := string;
  RestConfig := string;
  Clientset := string;
  BatchV1Client := string;
  ApiextensionsClientset := string;
  Secret := string;
  Pod := string;
  nilRestConfig := "";
  nilClientset := "";
  IsNotFound := fun e => String.eqb e "NotFound";
  kubeconfig_KubeConfig := fun w =>
    match w with
    | O => (Err "kubeconfig: no such file", 1)
    | S _ => (Ok "kubeconfig", w)
    end;
  restclient_CopyConfig := fun r => r;
  setNoWarnings := fun r => r +:+ "+nowarnings";
  kubernetes_NewForConfig := fun r w => (Ok ("clientset:" +:+ r), w);
  Detect := fun p _ w => (bool_decide (p = k3s), w);
  Load := fun _ _ w => (None, w);
  typedbatchv1_NewForConfig := fun r w => (Ok ("batch:" +:+ r), w);
  apiextensions_NewForConfig := fun r w => (Ok ("apiext:" +:+ r), w);
  Jobs_Get := fun _ _ _ w =>
    (Ok {| JobConditions :=
             if (w <? 2)%nat then []
             else [ {| Type_ := "Complete"; Status := "True" |} ] |}, w);
  CustomResourceDefinitions_Get := fun _ _ w =>
    match w with
    | O => (Err "NotFound", w)
    | S _ =>
        (Ok {| CRDConditions :=
                 [ {| Type_ := "NamesAccepted"; Status := "True" |};
                   {| Type_ := "Established"; Status := "True" |} ] |}, w)
    end;
  Secrets_Get := fun _ _ name w =>
    if (w <? 2)%nat then ((None, Some "NotFound"), w)
    else ((Some name, None), w);
  Pods_List := fun _ _ _ w => (Err "Forbidden", w);
  Namespaces_Get := fun _ _ w =>
    if (w <? 1)%nat then (Ok tt, w) else (Err "NotFound", w);
  elapse := fun _ w => S w;
  ErrWaitTimeout := fun _ => "timed out waiting for the condition";
|}.

(** A fresh process at time [w]. *)
Definition demoStart (w : nat) : @State demoEnv :=
  @Build_State demoEnv w [] [] None None.

Definition demoCluster : @Cluster demoEnv :=
  @Build_Cluster demoEnv "clientset" "kubeconfig" (Some k3s).

End Kubernetes.

(* ===================================================================== *)
(** * Package [gitea] (internal/cli/clients/gitea/gitea.go) *)
(* ===================================================================== *)

Module Gitea.

Definition GiteaCredentialsSecret : string := "gitea-creds".

(** ** [strings.TrimPrefix] *)

Fixpoint dropBytes (n : nat) (s : string) : string :=
  match n, s with
  | O, _ => s
  | S n', String _ s' => dropBytes n' s'
  | S _, EmptyString => EmptyString
  end.

(** [if HasPrefix(s, prefix) { return s[len(prefix):] }; return s] *)
Definition TrimPrefix (s prefix : string) : string :=
  if Registry.HasPrefix prefix s then dropBytes (String.length prefix) s
  else s.

(** ** API objects, as far as the package reads them *)

Record IngressRule := { Host : string }.
Record Ingress := { Rules : list IngressRule }.            (* Spec.Rules *)
Record IngressList := { Items : list Ingress }.
Record Secret := { Data : gmap string string }.
Record Config := { GiteaProtocol : string }.

(** What the package takes from outside: the cluster handle's accessors
    (this file calls them without a context argument), [pkg/errors], and
    two constants of package [deployments]. *)
Class Deps := {
  W : Type;
  error : Type;
  (** [errors.New] *)
  errors_New : string -> error;
  (** [errors.Wrap] applied to an error that is not nil *)
  wrapped : error -> string -> error;
  GiteaDeploymentID : string;
  TektonStagingNamespace : string;
  (** [cluster.ListIngress] *)
  ListIngress : string -> string -> W -> Result error IngressList * W;
  (** [cluster.GetSecret] *)
  GetSecret : string -> string -> W -> Result error Secret * W;
}.

Section Code.
Context `{D : Deps}.

(** [errors.Wrap]: "If err is nil, Wrap returns nil." *)
Definition errors_Wrap (err : option error) (message : string) : option error :=
  match err with
  | None => None
  | Some e => Some (wrapped e message)
  end.

(** [l[0]], read after the length of [l] was checked. *)
Definition first {A} (zero : A) (l : list A) : A := default zero (l !! 0%nat).

(** The checks [getMainDomain] and [getGiteaURL] share, up to the host of
    the only rule of the only ingress. *)
Definition onlyHost (ingresses : IngressList) : Result error string :=
  if (length (Items ingresses) <? 1)%nat then
    Err (errors_New "gitea ingress not found")
  else if (1 <? length (Items ingresses))%nat then
    Err (errors_New "more than one gitea ingress found")
  else
    let ingress := first {| Rules := [] |} (Items ingresses) in
    if (length (Rules ingress) <? 1)%nat then
      Err (errors_New "gitea ingress has no rules")
    else if (1 <? length (Rules ingress))%nat then
      Err (errors_New "gitea ingress has more than on rule")
    else Ok (Host (first {| Host := "" |} (Rules ingress))).

Definition getMainDomain (w : W) : (string * option error) * W :=
  match ListIngress GiteaDeploymentID "app.kubernetes.io/name=gitea" w with
  | (Err err, w') =>
      (("", errors_Wrap (Some err) "failed to list ingresses for gitea"), w')
  | (Ok ingresses, w') =>
      match onlyHost ingresses with
      | Err err => (("", Some err), w')
      | Ok host => ((TrimPrefix host "gitea.", None), w')
      end
  end.

Definition getGiteaURL (config : Config) (w : W) : (string * option error) * W :=
  match ListIngress GiteaDeploymentID "app.kubernetes.io/name=gitea" w with
  | (Err err, w') =>
      (("", errors_Wrap (Some err) "failed to list ingresses for gitea"), w')
  | (Ok ingresses, w') =>
      match onlyHost ingresses with
      | Err err => (("", Some err), w')
      | Ok host => ((GiteaProtocol config +:+ "://" +:+ host, None), w')
      end
  end.

(** After the read succeeded, [err] is nil, and it is this nil [err] that
    the two missing-key branches wrap. *)
Definition getGiteaCredentials (w : W) : (string * string * option error) * W :=
  match GetSecret TektonStagingNamespace GiteaCredentialsSecret w with
  | (Err err, w') =>
      (("", "", errors_Wrap (Some err) "failed to read gitea credentials"), w')
  | (Ok s, w') =>
      let err : option error := None in
      match Data s !! "username" with
      | None =>
          (("", "",
            errors_Wrap err "username key not found in gitea credentials secret"),
           w')
      | Some username =>
          match Data s !! "password" with
          | None =>
              (("", "",
                errors_Wrap err
                  "password key not found in gitea credentials secret"),
               w')
          | Some password => ((username, password, None), w')
          end
      end
  end.

End Code.

(** A cluster with one gitea ingress and a credentials secret that lacks
    its password. *)
Definition demoDeps : Deps := {|
  W := unit;
  error := string;
  errors_New := fun msg => msg;
  wrapped := fun e msg => msg +:+ ": " +:+ e;
  GiteaDeploymentID := "gitea";
  TektonStagingNamespace := "tekton-staging";
  ListIngress := fun _ _ w =>
    (Ok {| Items := [ {| Rules := [ {| Host := "gitea.10.0.0.1.nip.io" |} ] |} ] |},
     w);
  GetSecret := fun _ _ w =>
    (Ok {| Data := <["username" := "dev"]> ∅ |}, w);
|}.

End Gitea.

(* ===================================================================== *)
(** * Package [service]: unbinding a service *)
(* ===================================================================== *)

Module Service.

(** [v1.Secret], of which only the name is read. *)
Record Secret := { Name : string }.

Class Deps := {
  W : Type;
  (** the errors behind a non-nil [apierror.APIErrors] *)
  APIErrors : Type;
  (** [configurationbinding.DeleteBinding] on namespace, application,
      configuration and user *)
  DeleteBinding :
    string -> string -> string -> string -> W -> option APIErrors * W;
  (** [apierror.NewMultiError(errors.Errors())] *)
  NewMultiError : APIErrors -> APIErrors;
  (** [logger.Info] *)
  logger_Info : string -> W -> W;
}.

Section Code.
Context `{D : Deps}.



End Code.

(** An outside that is the list of bindings deleted so far; the binding of
    the configuration named [locked] cannot be deleted. *)
Definition demoDeps : Deps := {|
  W := list string;
  APIErrors := string;
  DeleteBinding := fun _ _ name _ w =>
    if String.eqb name "locked" then (Some "binding is locked", w)
    else (None, w ++ [name]);
  NewMultiError := fun e => e;
  logger_Info := fun _ w => w;
|}.

End Service.

(* ===================================================================== *)
(** * Properties of package [registry] *)
(* ===================================================================== *)

Module RegistryProofs.
Import Registry.

Example base64_user_pass :
  EncodeToString "user:pass" = "dXNlcjpwYXNz".
Proof. reflexivity. Qed.

Example base64_padding :
  EncodeToString "a:b1" = "YTpiMQ==" /\
  EncodeToString "ab:c1" = "YWI6YzE=".
Proof. split; reflexivity. Qed.


Lemma HasPrefix_spec p s : HasPrefix p s = true <-> exists b, s = p +:+ b.
Proof.
  revert s. induction p as [|a p IH]; intros s; simpl.
  - split; [intros _; by exists s | done].
  - destruct s as [|b s].
    + split; [done | intros [t Ht]; discriminate].
    + destruct (Ascii.eqb a b) eqn:Hab.
      * apply Ascii.eqb_eq in Hab as ->. rewrite IH.
        split; intros [t Ht]; exists t; [by rewrite Ht | by injection Ht].
      * apply Ascii.eqb_neq in Hab.
        split; [done | intros [t Ht]; injection Ht as -> _; done].
Qed.

Lemma Contains_spec p s : Contains p s = true <-> HasSubstring p s.
Proof.
  unfold HasSubstring. induction s as [|c s IH].
  - simpl. rewrite orb_false_r, HasPrefix_spec. split.
    + intros [b Hb]. by exists EmptyString, b.
    + intros [a [b Hab]]. destruct a; simpl in Hab; [by exists b | discriminate].
  - cbn [Contains]. rewrite orb_true_iff, HasPrefix_spec, IH. split.
    + intros [[b Hb] | [a [b Hab]]].
      * by exists EmptyString, b.
      * exists (String c a), b. simpl. by rewrite Hab.
    + intros [a [b Hab]]. destruct a as [|c' a]; simpl in Hab.
      * left. by exists b.
      * right. exists a, b. by injection Hab.
Qed.

Lemma MatchString_spec s :
  MatchString s = true <-> HasSubstring "127.0.0.1" s.
Proof. apply Contains_spec. Qed.

Section WithDeps.
Context `{D : Deps}.

Lemma eqb_empty_false s : s <> "" -> String.eqb s "" = false.
Proof. intros H. by apply String.eqb_neq. Qed.

(** A successful run of the loop saw no empty URL. *)
Lemma range_Ok_nonempty rs acc cfg :
  DockerConfigJSON_range rs acc = Ok cfg ->
  Forall (fun r => URL r <> "") rs.
Proof.
  revert acc. induction rs as [|r rs IH]; intros acc; simpl; [by constructor|].
  destruct (String.eqb (URL r) "") eqn:Hr; [done|].
  intros H. constructor; [by apply String.eqb_neq | by eapply IH].
Qed.

(** Without an empty URL the loop runs to its end. *)
Lemma range_nonempty_Ok rs acc :
  Forall (fun r => URL r <> "") rs ->
  exists cfg, DockerConfigJSON_range rs acc = Ok cfg.
Proof.
  intros H. revert acc. induction H as [|r rs Hr _ IH]; intros acc; simpl.
  - by exists acc.
  - rewrite (eqb_empty_false _ Hr). apply IH.
Qed.

(** The first empty URL ends the loop with the error. *)
Lemma range_empty_Err rs acc :
  Exists (fun r => URL r = "") rs ->
  DockerConfigJSON_range rs acc = Err (errors_New "url must be specified").
Proof.
  intros H. revert acc. induction rs as [|r rs IH]; intros acc.
  - inversion H.
  - simpl. destruct (String.eqb (URL r) "") eqn:Hr; [done|].
    apply IH. inversion H as [? ? Hh | ? ? Ht]; subst; [|done].
    apply String.eqb_neq in Hr. done.
Qed.

(** Credentials with other URLs leave the entry at [k] alone. *)
Lemma range_other_keys rs acc cfg k :
  Forall (fun r => URL r <> k) rs ->
  DockerConfigJSON_range rs acc = Ok cfg ->
  Auths cfg !! k = Auths acc !! k.
Proof.
  intros H. revert acc. induction H as [|r rs Hr _ IH]; intros acc; simpl.
  - by intros [= ->].
  - destruct (String.eqb (URL r) ""); [done|].
    intros Hrun. rewrite (IH _ Hrun). simpl. by rewrite lookup_insert_ne.
Qed.

(** The entry at a URL is that of the last credential carrying it. *)
Lemma range_last_wins l1 r l2 acc cfg :
  Forall (fun r' => URL r' <> URL r) l2 ->
  DockerConfigJSON_range (l1 ++ r :: l2) acc = Ok cfg ->
  Auths cfg !! URL r = Some (makeAuth r).
Proof.
  intros Hl2. revert acc. induction l1 as [|r1 l1 IH]; intros acc; simpl.
  - destruct (String.eqb (URL r) ""); [done|].
    intros Hrun. rewrite (range_other_keys _ _ _ _ Hl2 Hrun). simpl.
    by rewrite lookup_insert_eq.
  - destruct (String.eqb (URL r1) ""); [done|]. apply IH.
Qed.

Lemma PrivateRegistryURL_range_none rs :
  Forall (fun r => MatchString (URL r) = false) rs ->
  PrivateRegistryURL_range rs = "".
Proof.
  induction 1 as [|r rs Hr _ IH]; simpl; [done|]. by rewrite Hr.
Qed.

(** C9 (amended): [DockerConfigJSON] fails exactly when some credential has
    an empty URL; on success the map holds, for every credential that no
    later credential shares its URL with, an entry at that URL with the
    credential's user name and password and the base64 encoding of
    [Username:Password]. *)
Theorem DockerConfigJSON_entries (d : ConnectionDetails) :
  ((exists e, ConnectionDetails_DockerConfigJSON d = Err e) <->
   Exists (fun r => URL r = "") (Credentials d)) /\
  (forall cfg l1 r l2,
     ConnectionDetails_DockerConfigJSON d = Ok cfg ->
     Credentials d = l1 ++ r :: l2 ->
     Forall (fun r' => URL r' <> URL r) l2 ->
     entryFor cfg r).
Proof.
  unfold ConnectionDetails_DockerConfigJSON. split.
  - split.
    + intros [e He].
      destruct (decide (Exists (fun r => URL r = "") (Credentials d)))
        as [|Hno]; [done|].
      apply not_Exists_Forall in Hno; [|intros r; apply _].
      destruct (range_nonempty_Ok (Credentials d) {| Auths := ∅ |}) as [cfg Hcfg].
      { eapply Forall_impl; [exact Hno | done]. }
      congruence.
    + intros Hex. eexists. by apply range_empty_Err.
  - intros cfg l1 r l2 Hrun Hd Hl2. rewrite Hd in Hrun.
    exists (makeAuth r). split; [|done].
    by eapply range_last_wins.
Qed.

(** C10: when no credential URL contains [127.0.0.1] there is no private
    registry URL, and [ReplaceWithInternalRegistry] returns every image URL
    as it is, with a nil error, whatever the reference parser would do. *)
Theorem ReplaceWithInternalRegistry_noop (d : ConnectionDetails) :
  Forall (fun r => ~ HasSubstring "127.0.0.1" (URL r)) (Credentials d) ->
  PrivateRegistryURL d = ("", None) /\
  forall imageURL, ReplaceWithInternalRegistry d imageURL = (imageURL, None).
Proof.
  intros Hno.
  assert (Hp : PrivateRegistryURL_range (Credentials d) = "").
  { apply PrivateRegistryURL_range_none.
    eapply Forall_impl; [exact Hno|]. intros r Hr. simpl in Hr.
    destruct (MatchString (URL r)) eqn:Hm; [|done].
    by apply MatchString_spec in Hm. }
  unfold ReplaceWithInternalRegistry, PrivateRegistryURL. rewrite Hp.
  split; [done|]. by intros imageURL.
Qed.

End WithDeps.

(** C9 as stated fails: with two credentials for one URL the config is
    built without error, yet the entry at that URL carries the later
    credential, not the earlier one. *)
Lemma DockerConfigJSON_duplicate_url :
  exists cfg r,
    @ConnectionDetails_DockerConfigJSON demoDeps twoLogins = Ok cfg /\
    r ∈ Credentials twoLogins /\
    ~ entryFor cfg r.
Proof.
  eexists _, {| URL := "registry.example.com"; Username := "old"; Password := "1" |}.
  split; [reflexivity|]. split; [apply list_elem_of_here|].
  intros (a & Ha & Hu & _). vm_compute in Ha.
  injection Ha as <-. discriminate Hu.
Qed.

Lemma DockerConfigJSON_entries_witness :
  exists cfg,
    @ConnectionDetails_DockerConfigJSON demoDeps oneLogin = Ok cfg /\
    entryFor cfg
      {| URL := "registry.example.com"; Username := "admin"; Password := "s3cr3t" |}.
Proof.
  eexists. split; [reflexivity|].
  apply (proj2 (@DockerConfigJSON_entries demoDeps oneLogin) _ [] _ []);
    [reflexivity | reflexivity | constructor].
Defined.

Lemma ReplaceWithInternalRegistry_noop_witness :
  @ReplaceWithInternalRegistry demoDeps oneLogin "registry.example.com/apps/web:1"
  = ("registry.example.com/apps/web:1", None).
Proof.
  apply (@ReplaceWithInternalRegistry_noop demoDeps oneLogin).
  repeat constructor. rewrite <- MatchString_spec. vm_compute. discriminate.
Defined.

End RegistryProofs.

(* ===================================================================== *)
(** * Properties of package [kubernetes] *)
(* ===================================================================== *)

Module KubernetesProofs.
Import Kubernetes.

Section WithEnv.
Context `{E : Env}.

(** Unfold one layer of the state monad. *)
Ltac unfold_monad := unfold bind, ret, call, emit, sleep in *.

(** ** Condition functions *)

Lemma IsJobDone_range_spec conditions :
  IsJobDone_range conditions = true <->
  Exists (fun condition =>
            Status condition = "True" /\
            (Type_ condition = "Complete" \/ Type_ condition = "Failed"))
         conditions.
Proof.
  induction conditions as [|c cs IH]; simpl.
  - split; [done | by intros H; inversion H].
  - rewrite Exists_cons, <- IH.
    unfold ConditionTrue, JobFailed, JobComplete.
    destruct (String.eqb_spec (Status c) "True") as [Hs|Hs];
      destruct (String.eqb_spec (Type_ c) "Failed") as [Hf|Hf];
      destruct (String.eqb_spec (Type_ c) "Complete") as [Hc|Hc];
      simpl; intuition congruence.
Qed.

(** One evaluation of the job-done condition. *)
Lemma IsJobDone_eval c client jobName namespace st :
  IsJobDone c client jobName namespace st =
  let '(r, w) := Jobs_Get client namespace jobName (world st) in
  (match r with
   | Err err => (false, Some err)
   | Ok job => (IsJobDone_range (JobConditions job), None)
   end, observed w (CallJobsGet namespace jobName) st).
Proof.
  unfold IsJobDone, bind, call.
  by destruct (Jobs_Get client namespace jobName (world st)) as [[job|err] w].
Qed.

(** C3: one evaluation of the job-done condition reads the job once; it
    answers (true, nil) exactly when the read succeeds and some status
    condition is [True] with type [Complete] or [Failed], (false, nil) when
    the read succeeds without such a condition, and (false, err) when the
    read fails with [err]. *)
Theorem IsJobDone_spec (c : Cluster) (client : BatchV1Client)
    (jobName namespace : string) (st : State) :
  let '(r, w) := Jobs_Get client namespace jobName (world st) in
  let result := IsJobDone c client jobName namespace st in
  snd result = observed w (CallJobsGet namespace jobName) st /\
  (fst result = (true, None) <-> exists job, r = Ok job /\ jobFinished job) /\
  (forall job, r = Ok job -> ~ jobFinished job -> fst result = (false, None)) /\
  (forall err, r = Err err -> fst result = (false, Some err)).
Proof.
  unfold IsJobDone. unfold_monad.
  destruct (Jobs_Get client namespace jobName (world st)) as [[job|err] w];
    simpl; (split; [done|]).
  - pose proof (IsJobDone_range_spec (JobConditions job)) as Hscan.
    fold (jobFinished job) in Hscan.
    destruct (IsJobDone_range (JobConditions job)) eqn:Hr.
    + repeat split.
      * intros _. exists job. split; [done | by apply Hscan].
      * intros job' [= <-] Hno. exfalso. apply Hno. by apply Hscan.
      * intros err [=].
    + repeat split.
      * intros [=].
      * intros (job' & [= <-] & Hfin). apply Hscan in Hfin. discriminate.
      * intros err [=].
  - repeat split.
    + intros [=].
    + intros (job & [=] & _).
    + intros job [=].
    + by intros err' [= ->].
Qed.

Lemma listOptions_selector selector :
  (if (0 <? String.length selector)%nat then {| LabelSelector := selector |}
   else {| LabelSelector := "" |}) = {| LabelSelector := selector |}.
Proof. by destruct selector. Qed.

(** C4: one evaluation of the pod-absent condition lists the pods once; it
    answers (true, nil) for every error of the list call, (false, nil)
    exactly when the list succeeds with at least one pod, (true, nil) when
    it succeeds with none, and never an error. *)
Theorem PodDoesNotExist_spec (c : Cluster) (namespace selector : string)
    (st : State) :
  let '(r, w) :=
    Pods_List (Kubectl c) namespace {| LabelSelector := selector |} (world st) in
  let result := PodDoesNotExist c namespace selector st in
  snd result = observed w (CallPodsList namespace selector) st /\
  (forall err, r = Err err -> fst result = (true, None)) /\
  (fst result = (false, None) <-> exists pods, r = Ok pods /\ pods <> []) /\
  (r = Ok [] -> fst result = (true, None)) /\
  snd (fst result) = None.
Proof.
  unfold PodDoesNotExist, ListPods. unfold_monad.
  rewrite listOptions_selector. simpl.
  destruct (Pods_List (Kubectl c) namespace {| LabelSelector := selector |}
              (world st)) as [[pods|err] w]; simpl.
  - destruct pods as [|pod pods]; simpl.
    + split_and!; try done. split; [done|]. by intros (pods & [= <-] & Hne).
    + split_and!; try done. split; [|done]. intros _. by eexists.
  - split_and!; try done. split; [done|]. by intros (pods & [=] & _).
Qed.

(** C7: one evaluation of the namespace-absent condition reads the
    namespace once; it answers (false, nil) when the read succeeds and
    (true, nil) when the read reports not-found; its boolean is the
    negation of the one [NamespaceExists] reports and its error the same,
    so it is (true, nil) exactly when [NamespaceExists] is (false, nil). *)
Theorem NamespaceDoesNotExist_spec (c : Cluster) (namespaceName : string)
    (st : State) :
  let '(r, w) := Namespaces_Get (Kubectl c) namespaceName (world st) in
  let result := NamespaceDoesNotExist c namespaceName st in
  let existing := NamespaceExists c namespaceName st in
  snd result = observed w (CallNamespacesGet namespaceName) st /\
  (r = Ok tt -> fst result = (false, None)) /\
  (forall err, r = Err err -> IsNotFound err = true -> fst result = (true, None)) /\
  fst (fst result) = negb (fst (fst existing)) /\
  snd (fst result) = snd (fst existing) /\
  snd result = snd existing /\
  (fst result = (true, None) <-> fst existing = (false, None)).
Proof.
  unfold NamespaceDoesNotExist, NamespaceExists. unfold_monad.
  destruct (Namespaces_Get (Kubectl c) namespaceName (world st))
    as [[[]|err] w]; simpl.
  - split_and!; try done.
  - destruct (IsNotFound err) eqn:Hnf; simpl.
    + split_and!; try done.
    + split_and!; try done. intros err' [= <-]. congruence.
Qed.

(** ** The poller *)

Lemma poll_error n elapsed interval (condition : ConditionFunc) st b err st' :
  condition st = ((b, Some err), st') ->
  poll n elapsed interval condition st = (Some err, st').
Proof. intros H. destruct n; cbn [poll]; unfold bind; rewrite H; by destruct b. Qed.

Lemma poll_done n elapsed interval (condition : ConditionFunc) st st' :
  condition st = ((true, None), st') ->
  poll n elapsed interval condition st = (None, st').
Proof. intros H. destruct n; cbn [poll]; unfold bind; by rewrite H. Qed.

Lemma poll_timeout elapsed interval (condition : ConditionFunc) st st' :
  condition st = ((false, None), st') ->
  poll 0 elapsed interval condition st = (Some (ErrWaitTimeout elapsed), st').
Proof. intros H. cbn [poll]; unfold bind; by rewrite H. Qed.

Lemma poll_retry n elapsed interval (condition : ConditionFunc) st st' :
  condition st = ((false, None), st') ->
  poll (S n) elapsed interval condition st =
  poll n (elapsed + interval)%Z interval condition (snd (sleep interval st')).
Proof. intros H. cbn [poll]; unfold bind; by rewrite H. Qed.

(** A poll is decided by what it does from any evaluation it reaches. *)
Lemma poll_reaches interval (condition : ConditionFunc) n st m s :
  reaches interval condition n st m s ->
  forall elapsed, exists elapsed',
    poll n elapsed interval condition st = poll m elapsed' interval condition s.
Proof.
  induction 1 as [n st | n st st' m s Hc _ IH]; intros elapsed.
  - by exists elapsed.
  - destruct (IH (elapsed + interval)%Z) as [elapsed' Heq].
    exists elapsed'. by rewrite (poll_retry _ _ _ _ _ _ Hc).
Qed.

(** After a "not yet" with a boundary left, the next evaluation follows one
    interval later. *)
Lemma reaches_next interval (condition : ConditionFunc) n st m s s' :
  reaches interval condition n st (S m) s ->
  condition s = ((false, None), s') ->
  reaches interval condition n st m (snd (sleep interval s')).
Proof.
  intros H. remember (S m) as k eqn:Hk. revert m Hk.
  induction H as [n st | n st st' k s0 Hc _ IH]; intros m Hk Hs; subst.
  - eapply reaches_later; [exact Hs | apply reaches_here].
  - eapply reaches_later; [exact Hc | by apply IH].
Qed.

(** C8: the poll starts with an evaluation of the condition; if that
    evaluation is satisfied the poll returns success in the state the
    evaluation left, and an error from any evaluation the poll reaches,
    the first included, is the result of the poll, in the state that
    evaluation left.  For [WaitForJobDone]: once the batch client is built,
    a failing first read of the job, or a first read of a finished job,
    ends the wait with nothing recorded but the two calls. *)
Theorem PollImmediate_immediate (condition : ConditionFunc)
    (interval timeout : Duration) (st : State) :
  (exists k, PollImmediate interval timeout condition = bind condition k) /\
  (forall st',
     condition st = ((true, None), st') ->
     PollImmediate interval timeout condition st = (None, st')) /\
  (forall m s b err s',
     reaches interval condition (boundaries interval timeout) st m s ->
     condition s = ((b, Some err), s') ->
     PollImmediate interval timeout condition st = (Some err, s')) /\
  (forall c namespace jobName client w r w',
     typedbatchv1_NewForConfig (RestConfig_ c) (world st) = (Ok client, w) ->
     Jobs_Get client namespace jobName w = (r, w') ->
     let final :=
       observed w' (CallJobsGet namespace jobName)
         (observed w CallBatchNewForConfig st) in
     (forall err, r = Err err ->
        WaitForJobDone c namespace jobName timeout st = (Some err, final)) /\
     (forall job, r = Ok job -> jobFinished job ->
        WaitForJobDone c namespace jobName timeout st = (None, final))).
Proof.
  split_and!.
  - unfold PollImmediate. destruct (boundaries interval timeout); eexists; reflexivity.
  - intros st' H. by apply poll_done.
  - intros m s b err s' Hr Hc. unfold PollImmediate.
    destruct (poll_reaches _ _ _ _ _ _ Hr 0%Z) as [el ->].
    by eapply poll_error.
  - intros c namespace jobName client w r w' Hclient Hget final.
    pose proof (IsJobDone_eval c client jobName namespace
                  (observed w CallBatchNewForConfig st)) as Hev.
    cbn [world observed] in Hev. rewrite Hget in Hev. fold final in Hev.
    unfold WaitForJobDone, bind, call. rewrite Hclient. split.
    + intros err ->. by eapply poll_error.
    + intros job -> Hfin. apply poll_done. rewrite Hev.
      apply IsJobDone_range_spec in Hfin. by rewrite Hfin.
Qed.

(** ** [WaitForSecret] *)

(** One evaluation of the closure of [WaitForSecret]. *)
Lemma secretPresent_eval c namespace secretName s :
  secretPresent c namespace secretName s =
  let '((secret, err), w) :=
    Secrets_Get (Kubectl c) namespace secretName (world s) in
  (match err with
   | Some e => if IsNotFound e then (false, None) else (false, Some e)
   | None => (true, None)
   end,
   snd (setSecretVar secret (observed w (CallSecretsGet namespace secretName) s))).
Proof.
  unfold secretPresent, GetSecret, bind, call.
  destruct (Secrets_Get (Kubectl c) namespace secretName (world s))
    as [[secret [e|]] w]; simpl; [|done].
  by destruct (IsNotFound e).
Qed.

(** C6: take any evaluation the poll of [WaitForSecret] reaches, and the
    answer the secret read gives there.  A nil error ends the wait with the
    secret just read and a nil error.  An error that is not not-found ends
    the wait with that error.  A not-found error makes the evaluation answer
    "not yet": with an interval boundary left the poll evaluates again one
    interval later, and with none left the wait ends with the timeout
    error, never with the not-found error. *)
Theorem WaitForSecret_spec (c : Cluster) (namespace secretName : string)
    (timeout : Duration) (st : State) (m : nat) (s : State) :
  reaches Second (secretPresent c namespace secretName)
    (boundaries Second timeout) (snd (setSecretVar None st)) m s ->
  let '((secret, err), w) :=
    Secrets_Get (Kubectl c) namespace secretName (world s) in
  let s' :=
    snd (setSecretVar secret
           (observed w (CallSecretsGet namespace secretName) s)) in
  match err with
  | None =>
      WaitForSecret c namespace secretName timeout st = ((secret, None), s')
  | Some e =>
      if IsNotFound e then
        secretPresent c namespace secretName s = ((false, None), s') /\
        (forall m', m = S m' ->
           reaches Second (secretPresent c namespace secretName)
             (boundaries Second timeout) (snd (setSecretVar None st)) m'
             (snd (sleep Second s'))) /\
        (m = O -> exists elapsed,
           WaitForSecret c namespace secretName timeout st =
           ((secret, Some (ErrWaitTimeout elapsed)), s'))
      else
        WaitForSecret c namespace secretName timeout st = ((secret, Some e), s')
  end.
Proof.
  intros Hr.
  pose proof (secretPresent_eval c namespace secretName s) as Hev.
  destruct (Secrets_Get (Kubectl c) namespace secretName (world s))
    as [[secret err] w].
  destruct (poll_reaches _ _ _ _ _ _ Hr 0%Z) as [el Hpoll].
  assert (Hwait : forall waitErr,
    poll m el Second (secretPresent c namespace secretName) s =
      (waitErr,
       snd (setSecretVar secret
              (observed w (CallSecretsGet namespace secretName) s))) ->
    WaitForSecret c namespace secretName timeout st =
      ((secret, waitErr),
       snd (setSecretVar secret
              (observed w (CallSecretsGet namespace secretName) s)))).
  { intros waitErr Hm. unfold WaitForSecret, bind, PollImmediate.
    change (setSecretVar None st) with (tt, snd (setSecretVar None st)).
    cbv beta iota. by rewrite Hpoll, Hm. }
  destruct err as [e|]; [destruct (IsNotFound e) eqn:Hnf|].
  - split_and!; [done | |].
    + intros m' ->. by eapply reaches_next.
    + intros ->. exists el. apply Hwait. by apply poll_timeout.
  - apply Hwait. by eapply poll_error.
  - apply Hwait. by apply poll_done.
Qed.

(** ** [WaitForCRD] *)

(** [WaitForCRD] once the client is built: the two polls in sequence, the
    second only after the first succeeded, the progress display stopped on
    every path. *)
Lemma WaitForCRD_polls c ui CRDName timeout st clientset w0 :
  apiextensions_NewForConfig (RestConfig_ c) (world st) = (Ok clientset, w0) ->
  WaitForCRD c ui CRDName timeout st =
  let '(err, st2) :=
    PollImmediate Second timeout (crdExists clientset CRDName)
      (crdWaitStart CRDName w0 st) in
  match err with
  | Some e => (Some e, snd (Stop st2))
  | None =>
      let '(err2, st3) :=
        PollImmediate Second timeout (crdEstablished clientset CRDName) st2 in
      (err2, snd (Stop st3))
  end.
Proof.
  intros Hclient. unfold WaitForCRD, bind, call, Progressf, emit, crdWaitStart.
  cbn [world observed]. rewrite Hclient.
  destruct (PollImmediate Second timeout (crdExists clientset CRDName) _)
    as [[e|] st2]; [done|].
  by destruct (PollImmediate Second timeout (crdEstablished clientset CRDName) st2).
Qed.

Lemma crdExists_eval clientset CRDName s :
  crdExists clientset CRDName s =
  let '(r, w) := CustomResourceDefinitions_Get clientset CRDName (world s) in
  (match r with
   | Err e => if IsNotFound e then (false, None) else (false, Some e)
   | Ok _ => (true, None)
   end, observed w (CallCRDGet CRDName) s).
Proof.
  unfold crdExists, bind, call.
  destruct (CustomResourceDefinitions_Get clientset CRDName (world s))
    as [[crd|e] w]; [done|]. by destruct (IsNotFound e).
Qed.

Lemma crdEstablished_eval clientset CRDName s :
  crdEstablished clientset CRDName s =
  let '(r, w) := CustomResourceDefinitions_Get clientset CRDName (world s) in
  (match r with
   | Err e => (false, Some e)
   | Ok crd => (crdEstablished_range (CRDConditions crd), None)
   end, observed w (CallCRDGet CRDName) s).
Proof.
  unfold crdEstablished, bind, call.
  by destruct (CustomResourceDefinitions_Get clientset CRDName (world s))
    as [[crd|e] w].
Qed.

(** C2: [WaitForCRD], once its client is built, polls twice.  In the
    existence poll a not-found read answers "not yet": with a boundary left
    the poll evaluates again one interval later, and with none left the
    wait returns the timeout error of that poll.  In the establishment
    poll every failing read, not-found or not, ends the wait with the
    error of that read.  When the existence poll ends with an error, the
    timeout included, the wait returns that error and records nothing after
    the poll but the stop of the progress display, while every evaluation
    of the establishment condition records a CRD read: it is evaluated zero
    times. *)
Theorem WaitForCRD_phases (c : Cluster) (ui : UI) (CRDName : string)
    (timeout : Duration) (st : State) (clientset : ApiextensionsClientset)
    (w0 : World) :
  apiextensions_NewForConfig (RestConfig_ c) (world st) = (Ok clientset, w0) ->
  let st1 := crdWaitStart CRDName w0 st in
  let existence := crdExists clientset CRDName in
  let establishment := crdEstablished clientset CRDName in
  let n := boundaries Second timeout in
  (forall m s e w,
     reaches Second existence n st1 m s ->
     CustomResourceDefinitions_Get clientset CRDName (world s) = (Err e, w) ->
     IsNotFound e = true ->
     let s' := observed w (CallCRDGet CRDName) s in
     existence s = ((false, None), s') /\
     (forall m', m = S m' -> reaches Second existence n st1 m' (snd (sleep Second s'))) /\
     (m = O -> exists elapsed,
        WaitForCRD c ui CRDName timeout st =
        (Some (ErrWaitTimeout elapsed), snd (Stop s')))) /\
  (forall st2 m s e w,
     PollImmediate Second timeout existence st1 = (None, st2) ->
     reaches Second establishment n st2 m s ->
     CustomResourceDefinitions_Get clientset CRDName (world s) = (Err e, w) ->
     let s' := observed w (CallCRDGet CRDName) s in
     establishment s = ((false, Some e), s') /\
     WaitForCRD c ui CRDName timeout st = (Some e, snd (Stop s'))) /\
  (forall e st2,
     PollImmediate Second timeout existence st1 = (Some e, st2) ->
     WaitForCRD c ui CRDName timeout st = (Some e, snd (Stop st2)) /\
     trace (snd (WaitForCRD c ui CRDName timeout st)) = trace st2 ++ [UIStop]) /\
  (forall s,
     trace (snd (establishment s)) = trace s ++ [CallCRDGet CRDName]).
Proof.
  intros Hclient st1 existence establishment n.
  pose proof (WaitForCRD_polls c ui CRDName timeout st clientset w0 Hclient)
    as Hwait. fold st1 existence establishment in Hwait.
  split_and!.
  - intros m s e w Hr Hget Hnf s'.
    assert (Hev : existence s = ((false, None), s')).
    { unfold existence. rewrite crdExists_eval, Hget. by rewrite Hnf. }
    split_and!; [done | |].
    + intros m' ->. by eapply reaches_next.
    + intros ->. destruct (poll_reaches _ _ _ _ _ _ Hr 0%Z) as [el Hpoll].
      exists el. rewrite Hwait. unfold PollImmediate. fold n.
      by rewrite Hpoll, (poll_timeout _ _ _ _ _ Hev).
  - intros st2 m s e w Hfirst Hr Hget s'.
    assert (Hev : establishment s = ((false, Some e), s')).
    { unfold establishment. by rewrite crdEstablished_eval, Hget. }
    split; [done|]. rewrite Hwait, Hfirst.
    destruct (poll_reaches _ _ _ _ _ _ Hr 0%Z) as [el Hpoll].
    unfold PollImmediate. fold n.
    by rewrite Hpoll, (poll_error _ _ _ _ _ _ _ _ Hev).
  - intros e st2 Hfirst. rewrite Hwait, Hfirst. by split.
  - intros s. unfold establishment. rewrite crdEstablished_eval.
    by destruct (CustomResourceDefinitions_Get clientset CRDName (world s)).
Qed.

(** ** Platform detection and [GetCluster] *)

Lemma detectPlatform_range_run c ps st :
  exists w evs found,
    probed ps evs found /\
    detectPlatform_range c ps st =
    (tt, {| world := w; trace := trace st ++ evs;
            heap := detected c found (heap st);
            clusterMemo := clusterMemo st; secretVar := secretVar st |}).
Proof.
  revert st. induction ps as [|p ps IH]; intros st.
  - exists (world st), [], None. split; [apply probed_none|].
    simpl. unfold ret. rewrite app_nil_r. by destruct st.
  - cbn [detectPlatform_range]. unfold bind, deref, call.
    destruct (Detect p (Kubectl (default zeroCluster (heap st !! c))) (world st))
      as [[|] w] eqn:Hd.
    + exists w, [CallDetect p true], (Some p). split; [|done].
      by apply (probed_hit _ [] p ps).
    + destruct (IH (observed w (CallDetect p false) st))
        as (w' & evs & found & Hp & Hrun).
      exists w', (CallDetect p false :: evs), found. split.
      * destruct Hp as [ps1 q ps2 -> | ].
        -- by apply (probed_hit _ (p :: ps1) q ps2).
        -- apply (probed_none (p :: ps)).
      * rewrite Hrun. cbn [observed trace heap clusterMemo secretVar].
        by rewrite <- app_assoc.
Qed.

Lemma alter_snoc {A} (f : A -> A) (l : list A) (x : A) :
  alter f (length l) (l ++ [x]) = l ++ [f x].
Proof. rewrite alter_app_r_alt by lia. by rewrite Nat.sub_diag. Qed.

Lemma lookup_snoc {A} (l : list A) (x : A) : (l ++ [x]) !! length l = Some x.
Proof. by apply list_lookup_middle. Qed.

(** Every run of [GetCluster] that finds the memo empty. *)
Lemma GetCluster_miss st :
  clusterMemo st = None ->
  let c := length (heap st) in
  let after w evs h memo :=
    {| world := w; trace := trace st ++ evs; heap := heap st ++ [h];
       clusterMemo := memo; secretVar := secretVar st |} in
  match kubeconfig_KubeConfig (world st) with
  | (Err e, w1) =>
      GetCluster st =
      ((None, Some e), after w1 [CallKubeConfig] zeroCluster None)
  | (Ok rc, w1) =>
      match kubernetes_NewForConfig (setNoWarnings (restclient_CopyConfig rc)) w1 with
      | (Err e, w2) =>
          GetCluster st =
          ((None, Some e),
           after w2 [CallKubeConfig; CallNewForConfig]
             (setRestConfig rc zeroCluster) None)
      | (Ok cs, w2) =>
          exists evs found w3,
            probed SupportedPlatforms evs found /\
            let p := default generic found in
            let evs' := [CallKubeConfig; CallNewForConfig] ++ evs ++ [CallLoad p] in
            match Load p cs w3 with
            | (Some e, w4) =>
                GetCluster st =
                ((None, Some e), after w4 evs' (built rc cs p) None)
            | (None, w4) =>
                GetCluster st =
                ((Some c, None), after w4 evs' (built rc cs p) (Some c))
            end
      end
  end.
Proof.
  destruct st as [w0 tr h memo sv]. cbn [clusterMemo]. intros ->.
  cbv zeta.
  unfold GetCluster, bind, getMemo.
  unfold new, call. cbn [world trace heap clusterMemo secretVar fst snd].
  destruct (kubeconfig_KubeConfig w0) as [[rc|e] w1];
    [|reflexivity].
  unfold update, observed. cbn [world trace heap clusterMemo secretVar fst snd].
  destruct (kubernetes_NewForConfig (setNoWarnings (restclient_CopyConfig rc)) w1)
    as [[cs|e] w2].
  2:{ unfold ret. rewrite alter_snoc, <- app_assoc. reflexivity. }
  cbn [world trace heap clusterMemo secretVar fst snd].
  rewrite !alter_snoc. unfold detectPlatform.
  match goal with
  | |- context [detectPlatform_range ?c0 ?ps ?s0] =>
      destruct (detectPlatform_range_run c0 ps s0)
        as (w3 & evs & found & Hp & Hrun); rewrite Hrun
  end.
  exists evs, found, w3. split; [exact Hp|].
  unfold deref, setMemo, ret.
  cbn [world trace heap clusterMemo secretVar fst snd].
  destruct found as [p|]; cbn [detected default from_option].
  - rewrite alter_snoc, lookup_snoc.
    cbv [default from_option id platform setPlatform world trace heap
         clusterMemo secretVar].
    destruct (Load p cs w3) as [[e|] w4]; unfold built;
      cbv [world trace heap clusterMemo secretVar setPlatform setKubectl
           setRestConfig Kubectl RestConfig_ platform zeroCluster];
      repeat rewrite <- app_assoc; reflexivity.
  - rewrite lookup_snoc.
    cbv [default from_option id platform setKubectl setRestConfig zeroCluster
         world trace heap clusterMemo secretVar].
    rewrite alter_snoc.
    destruct (Load generic cs w3) as [[e|] w4]; unfold built;
      cbv [world trace heap clusterMemo secretVar setPlatform setKubectl
           setRestConfig Kubectl RestConfig_ platform zeroCluster];
      repeat rewrite <- app_assoc; reflexivity.
Qed.

Lemma GetCluster_hit st p :
  clusterMemo st = Some p -> GetCluster st = ((Some p, None), st).
Proof. intros H. unfold GetCluster, bind, getMemo. by rewrite H. Qed.

Lemma loads_misses ps : loads (misses ps) = [].
Proof. by induction ps. Qed.

Lemma loads_probed ps evs found : probed ps evs found -> loads evs = [].
Proof.
  intros [ps1 p ps2 _|]; unfold loads.
  - rewrite omap_app. fold (loads (misses ps1)). by rewrite loads_misses.
  - apply loads_misses.
Qed.


(** ** Detection against the probes *)

Lemma selects_probed k ps w evs found w' :
  selects k ps w evs found w' -> probed ps evs found.
Proof.
  intros [ps1 p ps2 w1 w2 Hps _ _ | w2 _].
  - by apply (probed_hit _ ps1 p ps2).
  - apply probed_none.
Qed.

(** One more strategy in front that answers no. *)
Lemma selects_miss k p ps w w1 evs found w' :
  Detect p k w = (false, w1) ->
  selects k ps w1 evs found w' ->
  selects k (p :: ps) w (CallDetect p false :: evs) found w'.
Proof.
  intros Hd [ps1 q ps2 w2 w3 Hps Hmiss Hq | w2 Hmiss].
  - apply (selects_first k (p :: ps) w (p :: ps1) q ps2 w2 w3).
    + by rewrite Hps.
    + simpl. by rewrite Hd.
    + exact Hq.
  - apply (selects_none k (p :: ps) w w2). simpl. by rewrite Hd.
Qed.

(** What is selected is what running the probes gives: the selection is
    determined by [Detect]. *)
Lemma selects_probes k ps w evs found w' :
  selects k ps w evs found w' -> probes k ps w = (evs, found, w').
Proof.
  intros [ps1 p ps2 w1 w2 -> Hmiss Hp | w2 Hmiss].
  - revert w Hmiss. induction ps1 as [|q ps1 IH]; intros w; simpl.
    + intros [= ->]. by rewrite Hp.
    + destruct (Detect q k w) as [[|] w0]; [done|]. intros Hmiss.
      by rewrite (IH _ Hmiss).
  - revert w Hmiss. induction ps as [|q ps IH]; intros w; simpl.
    + by intros [= ->].
    + destruct (Detect q k w) as [[|] w0]; [done|]. intros Hmiss.
      by rewrite (IH _ Hmiss).
Qed.

(** The loop runs the probes on the clientset of the handle. *)
Lemma detectPlatform_range_selects c ps st :
  exists w evs found,
    selects (Kubectl (default zeroCluster (heap st !! c))) ps (world st)
      evs found w /\
    detectPlatform_range c ps st =
    (tt, {| world := w; trace := trace st ++ evs;
            heap := detected c found (heap st);
            clusterMemo := clusterMemo st; secretVar := secretVar st |}).
Proof.
  revert st. induction ps as [|p ps IH]; intros st.
  - exists (world st), [], None. split.
    + by apply (selects_none _ [] (world st) (world st)).
    + simpl. unfold ret. rewrite app_nil_r. by destruct st.
  - cbn [detectPlatform_range]. unfold bind, deref, call.
    destruct (Detect p (Kubectl (default zeroCluster (heap st !! c))) (world st))
      as [[|] w] eqn:Hd.
    + exists w, [CallDetect p true], (Some p). split; [|done].
      by apply (selects_first _ (p :: ps) (world st) [] p ps (world st) w).
    + destruct (IH (observed w (CallDetect p false) st))
        as (w' & evs & found & Hsel & Hrun).
      exists w', (CallDetect p false :: evs), found. split.
      * by eapply selects_miss.
      * rewrite Hrun. cbn [observed trace heap clusterMemo secretVar].
        by rewrite <- app_assoc.
Qed.

(** A run of [GetCluster] that builds its clientset: the probes run on
    that clientset, from the outside its construction left. *)
Lemma GetCluster_built st rc w1 cs w2 :
  clusterMemo st = None ->
  kubeconfig_KubeConfig (world st) = (Ok rc, w1) ->
  kubernetes_NewForConfig (setNoWarnings (restclient_CopyConfig rc)) w1
    = (Ok cs, w2) ->
  exists evs found w3,
    selects cs SupportedPlatforms w2 evs found w3 /\
    let p := default generic found in
    let after w4 memo :=
      {| world := w4;
         trace := trace st ++
                  [CallKubeConfig; CallNewForConfig] ++ evs ++ [CallLoad p];
         heap := heap st ++ [built rc cs p];
         clusterMemo := memo; secretVar := secretVar st |} in
    match Load p cs w3 with
    | (Some e, w4) => GetCluster st = ((None, Some e), after w4 None)
    | (None, w4) =>
        GetCluster st =
        ((Some (length (heap st)), None), after w4 (Some (length (heap st))))
    end.
Proof.
  destruct st as [w0 tr h memo sv]. cbn [clusterMemo world].
  intros -> Hkube Hnew. cbv zeta.
  unfold GetCluster, bind, getMemo.
  unfold new, call. cbn [world trace heap clusterMemo secretVar fst snd].
  rewrite Hkube.
  unfold update, observed. cbn [world trace heap clusterMemo secretVar fst snd].
  rewrite Hnew.
  cbn [world trace heap clusterMemo secretVar fst snd].
  rewrite !alter_snoc. unfold detectPlatform.
  match goal with
  | |- context [detectPlatform_range ?c0 ?ps ?s0] =>
      destruct (detectPlatform_range_selects c0 ps s0)
        as (w3 & evs & found & Hsel & Hrun); rewrite Hrun
  end.
  cbn [heap world] in Hsel. rewrite lookup_snoc in Hsel.
  cbn [default from_option id Kubectl setKubectl] in Hsel.
  exists evs, found, w3. split; [exact Hsel|].
  unfold deref, setMemo, ret.
  cbn [world trace heap clusterMemo secretVar fst snd].
  destruct found as [p|]; cbn [detected default from_option].
  - rewrite alter_snoc, lookup_snoc.
    cbv [default from_option id platform setPlatform world trace heap
         clusterMemo secretVar].
    destruct (Load p cs w3) as [[e|] w4]; unfold built;
      cbv [world trace heap clusterMemo secretVar setPlatform setKubectl
           setRestConfig Kubectl RestConfig_ platform zeroCluster];
      repeat rewrite <- app_assoc; reflexivity.
  - rewrite lookup_snoc.
    cbv [default from_option id platform setKubectl setRestConfig zeroCluster
         world trace heap clusterMemo secretVar].
    rewrite alter_snoc.
    destruct (Load generic cs w3) as [[e|] w4]; unfold built;
      cbv [world trace heap clusterMemo secretVar setPlatform setKubectl
           setRestConfig Kubectl RestConfig_ platform zeroCluster];
      repeat rewrite <- app_assoc; reflexivity.
Qed.

(** C5: detection over any strategy list, on the clientset of the handle,
    selects the first strategy whose [Detect] answers true: the [Detect]
    of every strategy before it answers false, each probe running in the
    outside the one before it left; the probes recorded are those up to
    and including the selected one, none after it; the strategy is stored
    in the handle.  When every [Detect] answers false, one probe each is
    recorded and the handle is left alone.  A run of [GetCluster] that
    builds its clientset selects from [SupportedPlatforms] that way, on
    that clientset, falls back to [generic] without an error when nothing
    was selected, and calls [Load] once, on the chosen platform, after the
    probes; its error is the one [Load] returns.  A run that finds the memo
    set does nothing at all. *)
Theorem detectPlatform_first_match (c : ptr) (ps : list Platform) (st : State) :
  (exists w evs found,
     selects (Kubectl (default zeroCluster (heap st !! c))) ps (world st)
       evs found w /\
     probed ps evs found /\
     detectPlatform_range c ps st =
     (tt, {| world := w; trace := trace st ++ evs;
             heap := detected c found (heap st);
             clusterMemo := clusterMemo st; secretVar := secretVar st |})) /\
  (forall rc w1 cs w2,
     clusterMemo st = None ->
     kubeconfig_KubeConfig (world st) = (Ok rc, w1) ->
     kubernetes_NewForConfig (setNoWarnings (restclient_CopyConfig rc)) w1
       = (Ok cs, w2) ->
     exists evs found w3 loadErr w4,
       selects cs SupportedPlatforms w2 evs found w3 /\
       probed SupportedPlatforms evs found /\
       let p := default generic found in
       let recorded := [CallKubeConfig; CallNewForConfig] ++ evs ++ [CallLoad p] in
       Load p cs w3 = (loadErr, w4) /\
       snd (fst (GetCluster st)) = loadErr /\
       world (snd (GetCluster st)) = w4 /\
       trace (snd (GetCluster st)) = trace st ++ recorded /\
       loads recorded = [p] /\
       heap (snd (GetCluster st)) = heap st ++ [built rc cs p]) /\
  (forall p,
     clusterMemo st = Some p -> GetCluster st = ((Some p, None), st)).
Proof.
  split_and!.
  - destruct (detectPlatform_range_selects c ps st)
      as (w & evs & found & Hsel & Hrun).
    exists w, evs, found. split_and!; [done | by eapply selects_probed | done].
  - intros rc w1 cs w2 Hmemo Hkube Hnew.
    destruct (GetCluster_built st rc w1 cs w2 Hmemo Hkube Hnew)
      as (evs & found & w3 & Hsel & H). cbv zeta in H.
    pose proof (selects_probed _ _ _ _ _ _ Hsel) as Hp.
    exists evs, found, w3.
    destruct (Load (default generic found) cs w3) as [loadErr w4] eqn:Hload.
    exists loadErr, w4. split; [exact Hsel|]. split; [exact Hp|]. cbv zeta.
    assert (Hloads : loads ([CallKubeConfig; CallNewForConfig] ++ evs ++
                            [CallLoad (default generic found)])
                     = [default generic found]).
    { unfold loads. rewrite !omap_app. fold (loads evs).
      by rewrite (loads_probed _ _ _ Hp). }
    destruct loadErr as [e|]; rewrite H; by split_and!.
  - apply GetCluster_hit.
Qed.


End WithEnv.

(** ** The theorems at work on the concrete outside *)

(** Evaluate the run a statement is a case analysis of. *)
Ltac run_scrutinee H :=
  lazymatch type of H with
  | match ?x with _ => _ end =>
      let v := eval vm_compute in x in
      change x with v in H; cbv beta iota in H
  end.

Lemma IsJobDone_spec_witness :
  fst (@IsJobDone demoEnv demoCluster "batch" "linkerd-install" "linkerd"
         (demoStart 2)) = (true, None).
Proof.
  pose proof (@IsJobDone_spec demoEnv demoCluster "batch" "linkerd-install"
                "linkerd" (demoStart 2)) as H.
  run_scrutinee H. destruct H as (_ & Hdone & _). apply Hdone.
  eexists. split; [reflexivity|].
  apply Exists_cons_hd. split; [reflexivity | left; reflexivity].
Defined.

Lemma PodDoesNotExist_spec_witness :
  fst (@PodDoesNotExist demoEnv demoCluster "linkerd" "app=web" (demoStart 0))
  = (true, None).
Proof.
  pose proof (@PodDoesNotExist_spec demoEnv demoCluster "linkerd" "app=web"
                (demoStart 0)) as H.
  run_scrutinee H. destruct H as (_ & Herr & _). by eapply Herr.
Defined.

Lemma NamespaceDoesNotExist_spec_witness :
  fst (@NamespaceDoesNotExist demoEnv demoCluster "linkerd" (demoStart 0))
    = (false, None) /\
  fst (@NamespaceDoesNotExist demoEnv demoCluster "linkerd" (demoStart 1))
    = (true, None).
Proof.
  split.
  - pose proof (@NamespaceDoesNotExist_spec demoEnv demoCluster "linkerd"
                  (demoStart 0)) as H.
    run_scrutinee H. destruct H as (_ & Hok & _). by apply Hok.
  - pose proof (@NamespaceDoesNotExist_spec demoEnv demoCluster "linkerd"
                  (demoStart 1)) as H.
    run_scrutinee H. destruct H as (_ & _ & Hnf & _). by eapply Hnf.
Defined.

(** The job is already finished at time 2: the wait returns at once, with
    the two calls on record and no tick. *)
Lemma PollImmediate_immediate_witness :
  @WaitForJobDone demoEnv demoCluster "linkerd" "linkerd-install"
    (5 * Second)%Z (demoStart 2) =
  (None,
   @Build_State demoEnv 2
     [CallBatchNewForConfig; CallJobsGet "linkerd" "linkerd-install"]
     [] None None).
Proof.
  pose proof (@PollImmediate_immediate demoEnv
                (@IsJobDone demoEnv demoCluster "batch:kubeconfig"
                   "linkerd-install" "linkerd")
                Second (5 * Second)%Z (demoStart 2)) as (_ & _ & _ & H).
  refine (proj2 (H demoCluster "linkerd" "linkerd-install" _ _ _ _
                   eq_refl eq_refl) _ eq_refl _).
  apply Exists_cons_hd. split; [reflexivity | left; reflexivity].
Defined.

(** The secret appears at time 2: two evaluations answer "not yet", the
    third returns the secret. *)
Lemma WaitForSecret_spec_witness :
  fst (@WaitForSecret demoEnv demoCluster "epinio" "registry-creds"
         (3 * Second)%Z (demoStart 0)) = (Some "registry-creds", None).
Proof.
  eassert (Hr : @reaches demoEnv Second
                  (@secretPresent demoEnv demoCluster "epinio" "registry-creds")
                  (boundaries Second (3 * Second)%Z)
                  (snd (@setSecretVar demoEnv None (demoStart 0))) _ _).
  { change (boundaries Second (3 * Second)%Z) with 3%nat.
    eapply reaches_later; [reflexivity|].
    eapply reaches_later; [reflexivity|].
    apply reaches_here. }
  pose proof (@WaitForSecret_spec demoEnv demoCluster "epinio" "registry-creds"
                (3 * Second)%Z (demoStart 0) _ _ Hr) as H.
  run_scrutinee H. by rewrite H.
Defined.

(** The CRD never appears: the existence poll times out after three
    evaluations, the establishment poll never reads it. *)
Lemma WaitForCRD_phases_witness :
  @WaitForCRD demoEnv demoCluster termUI "apps.application.epinio.io"
    (2 * Second)%Z (demoStart 0) =
  (Some "timed out waiting for the condition",
   @Build_State demoEnv 2
     [UIProgress "Waiting for CRD apps.application.epinio.io to be ready to use";
      CallApiextensionsNewForConfig;
      CallCRDGet "apps.application.epinio.io"; Tick Second;
      CallCRDGet "apps.application.epinio.io"; Tick Second;
      CallCRDGet "apps.application.epinio.io";
      UIStop]
     [] None None).
Proof.
  pose proof (@WaitForCRD_phases demoEnv demoCluster termUI
                "apps.application.epinio.io" (2 * Second)%Z (demoStart 0)
                "apiext:kubeconfig" 0%nat eq_refl) as (_ & _ & H & _).
  exact (proj1 (H _ _ eq_refl)).
Defined.

(** On the k3s cluster: the [Detect] of [kind] answers false, that of
    [k3s] true, [ibm] and [minikube] are not asked, and [Load] runs once,
    on [k3s]. *)
Lemma detectPlatform_first_match_witness :
  trace (snd (@GetCluster demoEnv (demoStart 1))) =
    [CallKubeConfig; CallNewForConfig; CallDetect kind false;
     CallDetect k3s true; CallLoad k3s] /\
  heap (snd (@GetCluster demoEnv (demoStart 1))) =
    [@built demoEnv "kubeconfig" "clientset:kubeconfig+nowarnings" k3s].
Proof.
  pose proof (@detectPlatform_first_match demoEnv 0%nat SupportedPlatforms
                (demoStart 1)) as (_ & H & _).
  destruct (H "kubeconfig" 1%nat "clientset:kubeconfig+nowarnings" 1%nat
              eq_refl eq_refl eq_refl)
    as (evs & found & w3 & loadErr & w4 &
        Hsel & _ & _ & _ & _ & Htrace & _ & Hheap).
  apply selects_probes in Hsel. vm_compute in Hsel.
  injection Hsel as <- <- <-.
  split; [exact Htrace | exact Hheap].
Defined.

Example detectPlatform_demo_trace :
  trace (snd (@GetCluster demoEnv (demoStart 1))) =
  [CallKubeConfig; CallNewForConfig; CallDetect kind false;
   CallDetect k3s true; CallLoad k3s].
Proof. reflexivity. Qed.


End KubernetesProofs.

(* ===================================================================== *)
(** * Further properties of package [kubernetes] *)
(* ===================================================================== *)

Module KubernetesMore.
Import Kubernetes KubernetesProofs.

Section WithEnv.
Context `{E : Env}.

(** ** Framing: what the conditions and waits leave alone *)

Lemma reframe_observed pre h memo w ev st :
  observed w ev (reframe pre h memo st) = reframe pre h memo (observed w ev st).
Proof. unfold observed, reframe. simpl. by rewrite app_assoc. Qed.

Lemma Framed_ret {A} (a : A) : Framed (ret a).
Proof. by intros pre h memo st. Qed.

Lemma Framed_bind {A B} (m : M A) (k : A -> M B) :
  Framed m -> (forall a, Framed (k a)) -> Framed (bind m k).
Proof.
  intros Hm Hk pre h memo st. unfold bind. rewrite Hm.
  destruct (m st) as [a st']. simpl. apply Hk.
Qed.

Lemma Framed_call {A} (ev : A -> Event) (f : World -> A * World) :
  Framed (call ev f).
Proof.
  intros pre h memo st. unfold call. simpl.
  destruct (f (world st)) as [a w]. simpl. by rewrite reframe_observed.
Qed.

Lemma Framed_emit ev : Framed (emit ev).
Proof.
  intros pre h memo st. unfold emit. simpl. by rewrite <- reframe_observed.
Qed.

Lemma Framed_sleep d : Framed (sleep d).
Proof.
  intros pre h memo st. unfold sleep. simpl. by rewrite <- reframe_observed.
Qed.

Lemma Framed_setSecretVar s : Framed (setSecretVar s).
Proof. by intros pre h memo st. Qed.

Lemma Framed_getSecretVar : Framed getSecretVar.
Proof. by intros pre h memo st. Qed.

Lemma Framed_poll n elapsed interval (condition : ConditionFunc) :
  Framed condition -> Framed (poll n elapsed interval condition).
Proof.
  intros Hc. revert elapsed. induction n as [|n IH]; intros elapsed;
    cbn [poll]; (apply Framed_bind; [exact Hc|]); intros [[|] [e|]];
    try apply Framed_ret.
  apply Framed_bind; [apply Framed_sleep | intros _; apply IH].
Qed.

(** Take a definition of the package apart along its binds and cases. *)
Ltac framed :=
  repeat first
    [ apply Framed_ret | apply Framed_call | apply Framed_emit
    | apply Framed_sleep | apply Framed_setSecretVar
    | apply Framed_getSecretVar
    | apply Framed_poll
    | apply Framed_bind; [|intros ?]
    | match goal with
      | |- Framed (match ?x with _ => _ end) => destruct x
      end ].

Lemma Framed_IsJobDone c client jobName namespace :
  Framed (IsJobDone c client jobName namespace).
Proof. unfold IsJobDone. framed. Qed.

Lemma Framed_IsJobFailed c jobName namespace :
  Framed (IsJobFailed c jobName namespace).
Proof. unfold IsJobFailed. framed. Qed.

Lemma Framed_NamespaceDoesNotExist c namespaceName :
  Framed (NamespaceDoesNotExist c namespaceName).
Proof. unfold NamespaceDoesNotExist, NamespaceExists. framed. Qed.

Lemma Framed_PodDoesNotExist c namespace selector :
  Framed (PodDoesNotExist c namespace selector).
Proof. unfold PodDoesNotExist, ListPods. framed. Qed.

Lemma Framed_crdExists clientset CRDName : Framed (crdExists clientset CRDName).
Proof. unfold crdExists. framed. Qed.

Lemma Framed_crdEstablished clientset CRDName :
  Framed (crdEstablished clientset CRDName).
Proof. unfold crdEstablished. framed. Qed.

Lemma Framed_secretPresent c namespace secretName :
  Framed (secretPresent c namespace secretName).
Proof. unfold secretPresent, GetSecret. framed. Qed.

Lemma Framed_WaitForCRD c ui CRDName timeout :
  Framed (WaitForCRD c ui CRDName timeout).
Proof.
  unfold WaitForCRD, Progressf, Stop, PollImmediate. framed.
Qed.

Lemma Framed_WaitForSecret c namespace secretName timeout :
  Framed (WaitForSecret c namespace secretName timeout).
Proof.
  unfold WaitForSecret, PollImmediate. framed.
Qed.

Lemma Framed_WaitForJobDone c namespace jobName timeout :
  Framed (WaitForJobDone c namespace jobName timeout).
Proof.
  unfold WaitForJobDone, PollImmediate. framed.
Qed.

Lemma Framed_WaitForNamespaceMissing c ui namespace timeout :
  Framed (WaitForNamespaceMissing c ui namespace timeout).
Proof.
  unfold WaitForNamespaceMissing, Progressf, Stop, PollImmediate.
  destruct ui; framed.
Qed.

Lemma Framed_WaitForPodBySelectorMissing c namespace selector timeout :
  Framed (WaitForPodBySelectorMissing c namespace selector timeout).
Proof.
  unfold WaitForPodBySelectorMissing, PollImmediate. framed.
Qed.

Lemma reframe_id st : reframe [] (heap st) (clusterMemo st) st = st.
Proof. by destruct st. Qed.

(** A framed computation hands heap and memo on. *)
Lemma Framed_keeps {A} (m : M A) st :
  Framed m ->
  heap (snd (m st)) = heap st /\ clusterMemo (snd (m st)) = clusterMemo st.
Proof.
  intros Hm. pose proof (Hm [] (heap st) (clusterMemo st) st) as H.
  rewrite reframe_id in H. rewrite H at 1 2. by simpl.
Qed.

(** The waits leave the process's handles alone: after any of them the
    heap and the memo are what they were, so a memoized handle is still
    returned by [GetCluster], without an outside call. *)
Theorem waits_keep_handle (c : Cluster) (ui : UI) (maybeUI : option UI)
    (CRDName namespace name selector : string) (timeout : Duration)
    (st : State) :
  let kept st' :=
    heap st' = heap st /\
    clusterMemo st' = clusterMemo st /\
    (forall p, clusterMemo st = Some p ->
               GetCluster st' = ((Some p, None), st')) in
  kept (snd (WaitForCRD c ui CRDName timeout st)) /\
  kept (snd (WaitForSecret c namespace name timeout st)) /\
  kept (snd (WaitForJobDone c namespace name timeout st)) /\
  kept (snd (WaitForNamespaceMissing c maybeUI namespace timeout st)) /\
  kept (snd (WaitForPodBySelectorMissing c namespace selector timeout st)).
Proof.
  assert (Hkept : forall (m : M (option error)), Framed m ->
            heap (snd (m st)) = heap st /\
            clusterMemo (snd (m st)) = clusterMemo st /\
            (forall p, clusterMemo st = Some p ->
                       GetCluster (snd (m st)) = ((Some p, None), snd (m st)))).
  { intros m Hm. destruct (Framed_keeps m st Hm) as [Hh Hc].
    split_and!; [done | done |]. intros p Hp. apply GetCluster_hit. congruence. }
  cbv beta zeta. split; [|split; [|split; [|split]]].
  - apply Hkept, Framed_WaitForCRD.
  - destruct (Framed_keeps _ st (Framed_WaitForSecret c namespace name timeout))
      as [Hh Hc].
    split_and!; [done | done |]. intros p Hp. apply GetCluster_hit. congruence.
  - apply Hkept, Framed_WaitForJobDone.
  - apply Hkept, Framed_WaitForNamespaceMissing.
  - apply Hkept, Framed_WaitForPodBySelectorMissing.
Qed.

(** ** Where the result of a poll comes from *)

Lemma poll_outcome n elapsed interval (condition : ConditionFunc) st r st' :
  poll n elapsed interval condition st = (r, st') ->
  r = None \/
  (exists elapsed', r = Some (ErrWaitTimeout elapsed')) \/
  (exists s b e, r = Some e /\ condition s = ((b, Some e), st')).
Proof.
  revert elapsed st. induction n as [|n IH]; intros elapsed st;
    cbn [poll]; unfold bind;
    destruct (condition st) as [[b [e|]] s1] eqn:Hc.
  - destruct b; intros [= <- <-]; right; right; by eexists _, _, _.
  - destruct b; intros [= <- <-]; [by left | right; left; by eexists].
  - destruct b; intros [= <- <-]; right; right; by eexists _, _, _.
  - destruct b; [intros [= <- <-]; by left|].
    unfold sleep. apply IH.
Qed.

Lemma PodDoesNotExist_eval c namespace selector st :
  PodDoesNotExist c namespace selector st =
  let '(r, w) :=
    Pods_List (Kubectl c) namespace {| LabelSelector := selector |} (world st) in
  (match r with
   | Err _ => (true, None)
   | Ok pods => (match pods with [] => true | _ :: _ => false end, None)
   end, observed w (CallPodsList namespace selector) st).
Proof.
  unfold PodDoesNotExist, ListPods, bind, call.
  rewrite listOptions_selector. cbn [LabelSelector].
  destruct (Pods_List (Kubectl c) namespace {| LabelSelector := selector |}
              (world st)) as [[[|pod pods]|e] w]; done.
Qed.

(** [WaitForPodBySelectorMissing] never reports an error of the list call:
    it returns nil or the timeout error, and when the first list call fails
    it returns nil at once. *)
Theorem WaitForPodBySelectorMissing_swallows (c : Cluster)
    (namespace selector : string) (timeout : Duration) (st : State) :
  (fst (WaitForPodBySelectorMissing c namespace selector timeout st) = None \/
   exists elapsed,
     fst (WaitForPodBySelectorMissing c namespace selector timeout st)
     = Some (ErrWaitTimeout elapsed)) /\
  (forall e w,
     Pods_List (Kubectl c) namespace {| LabelSelector := selector |} (world st)
       = (Err e, w) ->
     WaitForPodBySelectorMissing c namespace selector timeout st
     = (None, observed w (CallPodsList namespace selector) st)).
Proof.
  unfold WaitForPodBySelectorMissing, PollImmediate. split.
  - destruct (poll _ _ _ _ st) as [r st'] eqn:Hp.
    destruct (poll_outcome _ _ _ _ _ _ _ Hp) as [-> | [[el ->] | (s & b & e & -> & He)]].
    + by left.
    + right. by exists el.
    + exfalso. rewrite PodDoesNotExist_eval in He.
      destruct (Pods_List _ _ _ _) as [[pods|e'] w]; by injection He.
  - intros e w Hlist. apply poll_done.
    by rewrite PodDoesNotExist_eval, Hlist.
Qed.

(** Every error [WaitForJobDone] returns is the error of building the
    batch client, the error of a job read, or the timeout error. *)
Theorem WaitForJobDone_error_source (c : Cluster) (namespace jobName : string)
    (timeout : Duration) (st st' : State) (e : error) :
  WaitForJobDone c namespace jobName timeout st = (Some e, st') ->
  (exists w, typedbatchv1_NewForConfig (RestConfig_ c) (world st) = (Err e, w)) \/
  (exists elapsed, e = ErrWaitTimeout elapsed) \/
  (exists client w0 w, Jobs_Get client namespace jobName w0 = (Err e, w)).
Proof.
  unfold WaitForJobDone, bind, call, PollImmediate.
  destruct (typedbatchv1_NewForConfig (RestConfig_ c) (world st))
    as [[client|e0] w] eqn:Hclient.
  - intros Hp.
    destruct (poll_outcome _ _ _ _ _ _ _ Hp)
      as [[=] | [[el [= ->]] | (s & b & e' & [= <-] & He)]].
    + right; left. by exists el.
    + right; right. rewrite IsJobDone_eval in He.
      destruct (Jobs_Get client namespace jobName (world s)) as [[job|e'] w'] eqn:Hg.
      * by injection He.
      * injection He as _ -> _. by eexists _, _, _.
  - intros [= <- _]. left. by exists w.
Qed.

(** ** [IsJobFailed] *)

Lemma IsJobFailed_range_spec conditions :
  IsJobFailed_range conditions = true <->
  Exists (fun condition => Type_ condition = "Failed" /\ Status condition = "True")
         conditions.
Proof.
  induction conditions as [|c cs IH]; simpl.
  - split; [done | by intros H; inversion H].
  - rewrite Exists_cons, <- IH. unfold ConditionTrue, JobFailed.
    destruct (String.eqb_spec (Type_ c) "Failed");
      destruct (String.eqb_spec (Status c) "True"); simpl; intuition congruence.
Qed.

(** What [IsJobFailed] finds failed, [IsJobDone] finds done. *)
Lemma failed_is_done conditions :
  IsJobFailed_range conditions = true -> IsJobDone_range conditions = true.
Proof.
  rewrite IsJobFailed_range_spec, IsJobDone_range_spec.
  intros H. eapply Exists_impl; [exact H|]. intros c [Ht Hs]. auto.
Qed.

(** [IsJobFailed] builds a batch client and reads the job once.  It
    answers (true, nil) exactly when both succeed and some status
    condition is [Failed] with status [True]; an error of either call comes
    back with false.  Whenever it answers (true, nil), [IsJobDone] on that
    client and that read answers (true, nil) as well. *)
Theorem IsJobFailed_spec (c : Cluster) (jobName namespace : string)
    (st : State) :
  let '(rc, w) := typedbatchv1_NewForConfig (RestConfig_ c) (world st) in
  let st1 := observed w CallBatchNewForConfig st in
  match rc with
  | Err err => IsJobFailed c jobName namespace st = ((false, Some err), st1)
  | Ok client =>
      let '(r, w') := Jobs_Get client namespace jobName w in
      let st2 := observed w' (CallJobsGet namespace jobName) st1 in
      snd (IsJobFailed c jobName namespace st) = st2 /\
      (fst (IsJobFailed c jobName namespace st) = (true, None) <->
       exists job, r = Ok job /\ jobFailed job) /\
      (forall err, r = Err err ->
         fst (IsJobFailed c jobName namespace st) = (false, Some err)) /\
      (fst (IsJobFailed c jobName namespace st) = (true, None) ->
       IsJobDone c client jobName namespace st1 = ((true, None), st2))
  end.
Proof.
  unfold IsJobFailed, bind, call.
  destruct (typedbatchv1_NewForConfig (RestConfig_ c) (world st))
    as [[client|err] w]; [|done].
  rewrite IsJobDone_eval. cbn [world observed].
  destruct (Jobs_Get client namespace jobName w) as [[job|err] w']; simpl.
  - pose proof (IsJobFailed_range_spec (JobConditions job)) as Hscan.
    fold (jobFailed job) in Hscan.
    pose proof (failed_is_done (JobConditions job)) as Hdone.
    destruct (IsJobFailed_range (JobConditions job)).
    + split_and!; [done | | done |].
      * split; [|done]. intros _. exists job. split; [done | by apply Hscan].
      * intros _. by rewrite Hdone.
    + split_and!; [done | | done | done].
      split; [done|]. intros (job' & [= <-] & Hf). apply Hscan in Hf. done.
  - split_and!; [done | | | done].
    + split; [done|]. by intros (job & [=] & _).
    + by intros err' [= ->].
Qed.

(** ** [WaitForNamespaceMissing] *)

Lemma NamespaceDoesNotExist_eval c namespaceName st :
  NamespaceDoesNotExist c namespaceName st =
  let '(r, w) := Namespaces_Get (Kubectl c) namespaceName (world st) in
  (match r with
   | Err err => if IsNotFound err then (true, None) else (true, Some err)
   | Ok _ => (false, None)
   end, observed w (CallNamespacesGet namespaceName) st).
Proof.
  unfold NamespaceDoesNotExist, NamespaceExists, bind, call.
  destruct (Namespaces_Get (Kubectl c) namespaceName (world st))
    as [[u|err] w]; [done|]. by destruct (IsNotFound err).
Qed.

Lemma unrecorded_reframe st :
  reframe (trace st) (heap st) (clusterMemo st) (unrecorded st) = st.
Proof. destruct st. unfold reframe, unrecorded. simpl. by rewrite app_nil_r. Qed.

(** The progress display does not steer [WaitForNamespaceMissing]: with or
    without a UI the result and the outside are the same, and the record
    with a UI is the record without one between the announcement and the
    stop. *)
Theorem WaitForNamespaceMissing_ui (c : Cluster) (ui : UI)
    (namespace : string) (timeout : Duration) (st : State) :
  let quiet := WaitForNamespaceMissing c None namespace timeout st in
  let shown := WaitForNamespaceMissing c (Some ui) namespace timeout st in
  fst shown = fst quiet /\
  world (snd shown) = world (snd quiet) /\
  exists recorded,
    trace (snd quiet) = trace st ++ recorded /\
    trace (snd shown) =
      trace st ++
      [UIProgress ("Waiting for namespace " +:+ namespace +:+ " to be deleted")]
      ++ recorded ++ [UIStop].
Proof.
  set (P := PollImmediate Second timeout (NamespaceDoesNotExist c namespace)).
  set (msg := UIProgress _).
  assert (HP : Framed P).
  { unfold P, PollImmediate. apply Framed_poll, Framed_NamespaceDoesNotExist. }
  destruct (P (unrecorded st)) as [r q] eqn:Hq.
  assert (Hquiet : WaitForNamespaceMissing c None namespace timeout st =
                   (r, reframe (trace st) (heap st) (clusterMemo st) q)).
  { unfold WaitForNamespaceMissing. fold P.
    rewrite <- (unrecorded_reframe st) at 1. by rewrite HP, Hq. }
  assert (Hshown : WaitForNamespaceMissing c (Some ui) namespace timeout st =
                   (r, observed (world q) UIStop
                         (reframe (trace st ++ [msg]) (heap st)
                            (clusterMemo st) q))).
  { unfold WaitForNamespaceMissing, Progressf, Stop, bind, emit. fold P msg.
    replace (observed (world st) msg st)
      with (reframe (trace st ++ [msg]) (heap st) (clusterMemo st)
              (unrecorded st)).
    - by rewrite HP, Hq.
    - destruct st. unfold observed, reframe, unrecorded. simpl.
      by rewrite app_nil_r. }
  cbv zeta. rewrite Hquiet, Hshown. simpl.
  split_and!; [done | done |]. exists (trace q).
  split; [done|]. by rewrite <- !app_assoc.
Qed.

(** At any evaluation the poll of [WaitForNamespaceMissing] reaches, a
    not-found read ends the wait with nil, and any other read error ends
    it with that error, although the condition answers true next to it. *)
Theorem WaitForNamespaceMissing_read_error (c : Cluster)
    (namespace : string) (timeout : Duration) (st : State) (m : nat)
    (s : State) (e : error) (w : World) :
  reaches Second (NamespaceDoesNotExist c namespace)
    (boundaries Second timeout) st m s ->
  Namespaces_Get (Kubectl c) namespace (world s) = (Err e, w) ->
  let s' := observed w (CallNamespacesGet namespace) s in
  if IsNotFound e then
    WaitForNamespaceMissing c None namespace timeout st = (None, s')
  else
    NamespaceDoesNotExist c namespace s = ((true, Some e), s') /\
    WaitForNamespaceMissing c None namespace timeout st = (Some e, s').
Proof.
  intros Hr Hget s'.
  pose proof (NamespaceDoesNotExist_eval c namespace s) as Hev.
  rewrite Hget in Hev. fold s' in Hev.
  destruct (poll_reaches _ _ _ _ _ _ Hr 0%Z) as [el Hpoll].
  unfold WaitForNamespaceMissing, PollImmediate. rewrite Hpoll.
  destruct (IsNotFound e).
  - by apply poll_done.
  - split; [done|]. by eapply poll_error.
Qed.

(** ** The handle [GetCluster] builds *)

Lemma probed_found ps evs p : probed ps evs (Some p) -> p ∈ ps.
Proof.
  inversion 1 as [ps1 q ps2 Hps|]; subst.
  apply elem_of_app. right. apply list_elem_of_here.
Qed.

(** A first successful [GetCluster] returns a new pointer to a handle that
    holds the config as [KubeConfig] gave it, the clientset built from the
    copy with warnings silenced, and a platform that is one of
    [SupportedPlatforms] or [generic]; [GetPlatform] returns that
    platform, and the handles allocated before are untouched. *)
Theorem GetCluster_handle (st st' : State) (p : ptr) :
  clusterMemo st = None ->
  GetCluster st = ((Some p, None), st') ->
  exists rc w1 cs w2 plat,
    kubeconfig_KubeConfig (world st) = (Ok rc, w1) /\
    kubernetes_NewForConfig (setNoWarnings (restclient_CopyConfig rc)) w1
      = (Ok cs, w2) /\
    p = length (heap st) /\
    heap st' !! p = Some (built rc cs plat) /\
    (plat ∈ SupportedPlatforms \/ plat = generic) /\
    GetPlatform p st' = (Some plat, st') /\
    (forall q cl, heap st !! q = Some cl -> heap st' !! q = Some cl).
Proof.
  intros Hmemo Hrun.
  pose proof (GetCluster_miss st Hmemo) as H. cbv zeta in H.
  destruct (kubeconfig_KubeConfig (world st)) as [[rc|e] w1] eqn:Hkube;
    [|rewrite H in Hrun; discriminate].
  destruct (kubernetes_NewForConfig _ w1) as [[cs|e] w2] eqn:Hnew;
    [|rewrite H in Hrun; discriminate].
  destruct H as (evs & found & w3 & Hp & H).
  destruct (Load (default generic found) cs w3) as [[e|] w4];
    rewrite H in Hrun; [discriminate|].
  injection Hrun as <- <-.
  exists rc, w1, cs, w2, (default generic found).
  split_and!; [done | done | done | | | |].
  - simpl. apply lookup_snoc.
  - destruct found as [q|]; [left | by right]. by eapply probed_found.
  - unfold GetPlatform, bind, deref, ret. simpl. by rewrite lookup_snoc.
  - intros q cl Hq. simpl. by apply lookup_app_l_Some.
Qed.

(** ** What a nil result of a wait shows *)

Lemma poll_success n elapsed interval (condition : ConditionFunc) st st' :
  poll n elapsed interval condition st = (None, st') ->
  exists s, condition s = ((true, None), st').
Proof.
  revert elapsed st. induction n as [|n IH]; intros elapsed st;
    cbn [poll]; unfold bind;
    destruct (condition st) as [[[|] [e|]] s1] eqn:Hc; try done.
  - intros [= <-]. by exists st.
  - intros [= <-]. by exists st.
  - unfold sleep. apply IH.
Qed.

Lemma crdEstablished_range_spec conditions :
  crdEstablished_range conditions = true <->
  Exists (fun cond => Type_ cond = "Established" /\ Status cond = "True")
         conditions.
Proof.
  induction conditions as [|c cs IH]; simpl.
  - split; [done | by intros H; inversion H].
  - rewrite Exists_cons, <- IH. unfold ConditionTrue, Established.
    destruct (String.eqb_spec (Type_ c) "Established");
      destruct (String.eqb_spec (Status c) "True"); simpl; intuition congruence.
Qed.

(** [WaitForJobDone] returns nil only after a read of the job that
    succeeded and showed it finished; that read is the last thing the wait
    did. *)
Theorem WaitForJobDone_success (c : Cluster) (namespace jobName : string)
    (timeout : Duration) (st st' : State) :
  WaitForJobDone c namespace jobName timeout st = (None, st') ->
  exists client s job,
    Jobs_Get client namespace jobName (world s) = (Ok job, world st') /\
    jobFinished job /\
    st' = observed (world st') (CallJobsGet namespace jobName) s.
Proof.
  unfold WaitForJobDone, bind, call, PollImmediate.
  destruct (typedbatchv1_NewForConfig (RestConfig_ c) (world st))
    as [[client|e0] w]; [|done].
  intros Hp. apply poll_success in Hp as [s Hs].
  rewrite IsJobDone_eval in Hs.
  destruct (Jobs_Get client namespace jobName (world s)) as [[job|e] w'] eqn:Hg;
    [|done].
  injection Hs as Hscan <-. exists client, s, job. simpl.
  split_and!; [done | by apply IsJobDone_range_spec | done].
Qed.

(** [WaitForCRD] returns nil only after a read of the CRD that succeeded
    and showed the condition [Established] with status [True]; after that
    read it only stops the progress display. *)
Theorem WaitForCRD_success (c : Cluster) (ui : UI) (CRDName : string)
    (timeout : Duration) (st st' : State) :
  WaitForCRD c ui CRDName timeout st = (None, st') ->
  exists clientset s crd,
    CustomResourceDefinitions_Get clientset CRDName (world s)
      = (Ok crd, world st') /\
    Exists (fun cond => Type_ cond = "Established" /\ Status cond = "True")
           (CRDConditions crd) /\
    st' = snd (Stop (observed (world st') (CallCRDGet CRDName) s)).
Proof.
  unfold WaitForCRD, Progressf, bind, call, emit. cbn [world observed].
  destruct (apiextensions_NewForConfig (RestConfig_ c) (world st))
    as [[clientset|e0] w]; [|done].
  destruct (PollImmediate Second timeout (crdExists clientset CRDName) _)
    as [[e|] st2]; [done|].
  destruct (PollImmediate Second timeout (crdEstablished clientset CRDName) st2)
    as [[e|] st3] eqn:Hp; [done|].
  intros [= <-]. apply poll_success in Hp as [s Hs].
  rewrite crdEstablished_eval in Hs.
  destruct (CustomResourceDefinitions_Get clientset CRDName (world s))
    as [[crd|e] w'] eqn:Hg; [|done].
  injection Hs as Hscan <-. exists clientset, s, crd. simpl.
  split_and!; [done | by apply crdEstablished_range_spec | done].
Qed.

End WithEnv.

(** ** The theorems at work on the concrete outside *)

Lemma waits_keep_handle_witness :
  let st := snd (@GetCluster demoEnv (demoStart 1)) in
  let st' :=
    snd (@WaitForJobDone demoEnv demoCluster "linkerd" "linkerd-install"
           (3 * Second)%Z st) in
  @GetCluster demoEnv st' = ((Some 0%nat, None), st').
Proof.
  intros st st'.
  pose proof (@waits_keep_handle demoEnv demoCluster termUI None "crd" "linkerd"
                "linkerd-install" "app=web" (3 * Second)%Z st)
    as (_ & _ & (_ & _ & H) & _).
  by apply H.
Defined.

Lemma WaitForPodBySelectorMissing_swallows_witness :
  fst (@WaitForPodBySelectorMissing demoEnv demoCluster "linkerd" "app=web"
         (3 * Second)%Z (demoStart 0)) = None.
Proof.
  pose proof (@WaitForPodBySelectorMissing_swallows demoEnv demoCluster
                "linkerd" "app=web" (3 * Second)%Z (demoStart 0)) as [_ H].
  by rewrite (H "Forbidden" 0%nat eq_refl).
Defined.

(** With no time to wait, the job unfinished at time 0 gives the timeout. *)
Lemma WaitForJobDone_error_source_witness :
  let e := "timed out waiting for the condition" in
  (exists w,
     @typedbatchv1_NewForConfig demoEnv "kubeconfig" 0%nat = (Err e, w)) \/
  (exists elapsed, e = @ErrWaitTimeout demoEnv elapsed) \/
  (exists client w0 w,
     @Jobs_Get demoEnv client "linkerd" "linkerd-install" w0 = (Err e, w)).
Proof.
  exact (@WaitForJobDone_error_source demoEnv demoCluster "linkerd"
           "linkerd-install" 0%Z (demoStart 0) _ _ eq_refl).
Defined.

Lemma IsJobFailed_spec_witness :
  fst (@IsJobFailed demoEnv demoCluster "linkerd-install" "linkerd" (demoStart 2))
  <> (true, None).
Proof.
  pose proof (@IsJobFailed_spec demoEnv demoCluster "linkerd-install" "linkerd"
                (demoStart 2)) as H.
  run_scrutinee H. cbv zeta in H. run_scrutinee H. cbv zeta in H.
  destruct H as (_ & Hiff & _).
  intros Hfailed. apply Hiff in Hfailed as (job & [= <-] & Hf).
  apply Exists_cons in Hf as [[[=] _] | Hf]. inversion Hf.
Defined.

Lemma WaitForNamespaceMissing_ui_witness :
  fst (@WaitForNamespaceMissing demoEnv demoCluster (Some termUI) "linkerd"
         (2 * Second)%Z (demoStart 0))
  = fst (@WaitForNamespaceMissing demoEnv demoCluster None "linkerd"
           (2 * Second)%Z (demoStart 0)).
Proof.
  exact (proj1 (@WaitForNamespaceMissing_ui demoEnv demoCluster termUI "linkerd"
                  (2 * Second)%Z (demoStart 0))).
Defined.

(** The namespace is there at time 0 and gone at time 1: the second
    evaluation ends the wait. *)
Lemma WaitForNamespaceMissing_read_error_witness :
  fst (@WaitForNamespaceMissing demoEnv demoCluster None "linkerd"
         (2 * Second)%Z (demoStart 0)) = None.
Proof.
  eassert (Hr : @reaches demoEnv Second
                  (@NamespaceDoesNotExist demoEnv demoCluster "linkerd")
                  (boundaries Second (2 * Second)%Z) (demoStart 0) _ _).
  { change (boundaries Second (2 * Second)%Z) with 2%nat.
    eapply reaches_later; [reflexivity|]. apply reaches_here. }
  pose proof (@WaitForNamespaceMissing_read_error demoEnv demoCluster "linkerd"
                (2 * Second)%Z (demoStart 0) _ _ "NotFound" 1%nat Hr eq_refl)
    as H.
  cbv zeta in H. change (@IsNotFound demoEnv "NotFound") with true in H.
  cbv iota in H. by rewrite H.
Defined.

Lemma GetCluster_handle_witness :
  let st' := snd (@GetCluster demoEnv (demoStart 1)) in
  exists plat,
    @GetPlatform demoEnv 0%nat st' = (Some plat, st') /\
    (plat ∈ SupportedPlatforms \/ plat = generic).
Proof.
  intros st'.
  destruct (@GetCluster_handle demoEnv (demoStart 1) st' 0%nat eq_refl eq_refl)
    as (rc & w1 & cs & w2 & plat & _ & _ & _ & _ & Hin & Hget & _).
  by exists plat.
Defined.

Lemma WaitForJobDone_success_witness :
  exists job,
    jobFinished job /\
    exists client s w,
      @Jobs_Get demoEnv client "linkerd" "linkerd-install" (@world demoEnv s)
      = (Ok job, w).
Proof.
  destruct (@WaitForJobDone_success demoEnv demoCluster "linkerd"
              "linkerd-install" (3 * Second)%Z (demoStart 0) _ eq_refl)
    as (client & s & job & Hget & Hfin & _).
  exists job. split; [exact Hfin|]. by eexists _, _, _.
Defined.

Lemma WaitForCRD_success_witness :
  exists crd,
    Exists (fun cond => Type_ cond = "Established" /\ Status cond = "True")
           (CRDConditions crd).
Proof.
  destruct (@WaitForCRD_success demoReady
              (@Build_Cluster demoReady "clientset" "kubeconfig" (Some k3s))
              termUI "apps.application.epinio.io" (3 * Second)%Z
              (@Build_State demoReady 0%nat [] [] None None) _ eq_refl)
    as (clientset & s & crd & _ & Hest & _).
  by exists crd.
Defined.

End KubernetesMore.

(* ===================================================================== *)
(** * Further properties of package [registry] *)
(* ===================================================================== *)

Module RegistryMore.
Import Registry RegistryProofs.

Section WithDeps.
Context `{D : Deps}.

(** ** The entries of the docker config *)

Lemma range_entry_source rs acc cfg k a :
  DockerConfigJSON_range rs acc = Ok cfg ->
  Auths cfg !! k = Some a ->
  Auths acc !! k = Some a \/
  exists r, r ∈ rs /\ URL r = k /\ a = makeAuth r.
Proof.
  revert acc. induction rs as [|r rs IH]; intros acc; simpl.
  - intros [= ->]. by left.
  - destruct (String.eqb (URL r) ""); [done|]. intros Hrun Hk.
    destruct (IH _ Hrun Hk) as [Hacc | (r' & Hin & Hu & Ha)].
    + simpl in Hacc. destruct (decide (URL r = k)) as [<-|Hne].
      * rewrite lookup_insert_eq in Hacc. injection Hacc as <-.
        right. exists r. split; [apply list_elem_of_here | done].
      * rewrite lookup_insert_ne in Hacc by done. by left.
    + right. exists r'. split; [by apply list_elem_of_further | done].
Qed.

Lemma range_keeps_key rs acc cfg k :
  DockerConfigJSON_range rs acc = Ok cfg ->
  is_Some (Auths acc !! k) -> is_Some (Auths cfg !! k).
Proof.
  revert acc. induction rs as [|r rs IH]; intros acc; simpl.
  - by intros [= ->].
  - destruct (String.eqb (URL r) ""); [done|]. intros Hrun Hk.
    apply (IH _ Hrun). simpl. rewrite lookup_insert_is_Some.
    destruct (decide (URL r = k)); auto.
Qed.

Lemma range_has_key rs acc cfg r :
  DockerConfigJSON_range rs acc = Ok cfg ->
  r ∈ rs -> is_Some (Auths cfg !! URL r).
Proof.
  revert acc. induction rs as [|r0 rs IH]; intros acc; simpl.
  - intros _ Hin. by apply not_elem_of_nil in Hin.
  - destruct (String.eqb (URL r0) ""); [done|]. intros Hrun Hin.
    apply elem_of_cons in Hin as [->|Hin]; [|by eapply IH].
    eapply range_keeps_key; [exact Hrun|]. simpl.
    rewrite lookup_insert_eq. by eexists.
Qed.

(** When [DockerConfigJSON] succeeds, the keys of [Auths] are exactly the
    URLs of the credentials, none of them empty, and every entry is the
    one made from a credential with that URL: its [Auth] field always
    encodes the user name and password next to it. *)
Theorem DockerConfigJSON_keys (d : ConnectionDetails) (cfg : DockerConfigJSON) :
  ConnectionDetails_DockerConfigJSON d = Ok cfg ->
  (forall k, is_Some (Auths cfg !! k) <->
             exists r, r ∈ Credentials d /\ URL r = k) /\
  (forall k a, Auths cfg !! k = Some a ->
               exists r, r ∈ Credentials d /\ URL r = k /\ a = makeAuth r) /\
  Auths cfg !! "" = None.
Proof.
  unfold ConnectionDetails_DockerConfigJSON. intros Hrun.
  assert (Hsrc : forall k a, Auths cfg !! k = Some a ->
            exists r, r ∈ Credentials d /\ URL r = k /\ a = makeAuth r).
  { intros k a Hk.
    destruct (range_entry_source _ _ _ _ _ Hrun Hk) as [Hacc|H]; [|done].
    simpl in Hacc. by rewrite lookup_empty in Hacc. }
  split_and!; [|done|].
  - intros k. split.
    + intros [a Hk]. destruct (Hsrc k a Hk) as (r & Hin & Hu & _). by exists r.
    + intros (r & Hin & <-). by eapply range_has_key.
  - destruct (Auths cfg !! "") as [a|] eqn:Hk; [|done].
    destruct (Hsrc "" a Hk) as (r & Hin & Hu & _).
    pose proof (range_Ok_nonempty _ _ _ Hrun) as Hne.
    rewrite Forall_forall in Hne. by destruct (Hne r Hin).
Qed.

(** ** From the docker config back to credentials *)

Lemma range_to_list rs acc cfg :
  NoDup (URL <$> rs) ->
  Forall (fun r => Auths acc !! URL r = None) rs ->
  DockerConfigJSON_range rs acc = Ok cfg ->
  map_to_list (Auths cfg) ≡ₚ
    ((fun r => (URL r, makeAuth r)) <$> rs) ++ map_to_list (Auths acc).
Proof.
  revert acc. induction rs as [|r rs IH]; intros acc Hnd Hfresh; simpl.
  - by intros [= ->].
  - destruct (String.eqb (URL r) ""); [done|]. intros Hrun.
    apply NoDup_cons in Hnd as [Hr Hnd].
    apply Forall_cons in Hfresh as [Hr0 Hfresh].
    assert (Hfresh' : Forall (fun r' =>
              Auths {| Auths := <[URL r := makeAuth r]> (Auths acc) |}
                !! URL r' = None) rs).
    { apply Forall_forall. intros r' Hin. simpl.
      rewrite lookup_insert_ne.
      - by apply (proj1 (Forall_forall _ _) Hfresh).
      - intros Heq. apply Hr. rewrite Heq. by apply list_elem_of_fmap_2. }
    rewrite (IH _ Hnd Hfresh' Hrun). simpl.
    rewrite map_to_list_insert by done.
    by rewrite Permutation_middle.
Qed.

(** ** The two registry URLs *)

Lemma MatchString_empty : MatchString "" = false.
Proof. reflexivity. Qed.

Lemma PrivateRegistryURL_range_first rs :
  PrivateRegistryURL_range rs <> "" ->
  exists l1 r l2,
    rs = l1 ++ r :: l2 /\
    Forall (fun r' => MatchString (URL r') = false) l1 /\
    MatchString (URL r) = true /\
    PrivateRegistryURL_range rs = URL r.
Proof.
  induction rs as [|r rs IH]; simpl; [done|].
  destruct (MatchString (URL r)) eqn:Hm.
  - intros _. by exists [], r, rs.
  - intros Hne. destruct (IH Hne) as (l1 & r' & l2 & -> & Hl1 & Hr' & Heq).
    exists (r :: l1), r', l2. split_and!; [done | by constructor | done | done].
Qed.

Lemma PublicRegistryURL_range_public rs :
  MatchString (PublicRegistryURL_range rs) = false /\
  (PublicRegistryURL_range rs <> "" ->
   exists r, r ∈ rs /\ URL r = PublicRegistryURL_range rs).
Proof.
  induction rs as [|r rs [IHm IHin]]; simpl; [done|].
  destruct (MatchString (URL r)) eqn:Hm; simpl.
  - split; [done|]. intros Hne. destruct (IHin Hne) as (r' & Hin & Heq).
    exists r'. split; [by apply list_elem_of_further | done].
  - split; [done|]. intros _. exists r. split; [apply list_elem_of_here | done].
Qed.

(** [PrivateRegistryURL] is empty exactly when no credential URL contains
    [127.0.0.1]; otherwise it is the URL of the first credential that
    does.  [PublicRegistryURL] never contains [127.0.0.1] and, when not
    empty, is the URL of a credential.  So a private URL is never the
    public one. *)
Theorem registry_urls (d : ConnectionDetails) :
  let private := fst (PrivateRegistryURL d) in
  let public := fst (PublicRegistryURL d) in
  (private = "" <->
   Forall (fun r => ~ HasSubstring "127.0.0.1" (URL r)) (Credentials d)) /\
  (private <> "" ->
   exists l1 r l2,
     Credentials d = l1 ++ r :: l2 /\
     Forall (fun r' => ~ HasSubstring "127.0.0.1" (URL r')) l1 /\
     HasSubstring "127.0.0.1" (URL r) /\
     private = URL r) /\
  ~ HasSubstring "127.0.0.1" public /\
  (public <> "" -> exists r, r ∈ Credentials d /\ URL r = public) /\
  (private <> "" -> private <> public) /\
  snd (PrivateRegistryURL d) = None /\ snd (PublicRegistryURL d) = None.
Proof.
  cbv zeta. unfold PrivateRegistryURL, PublicRegistryURL. cbn [fst snd].
  assert (Hfirst : PrivateRegistryURL_range (Credentials d) <> "" ->
            exists l1 r l2,
              Credentials d = l1 ++ r :: l2 /\
              Forall (fun r' => ~ HasSubstring "127.0.0.1" (URL r')) l1 /\
              HasSubstring "127.0.0.1" (URL r) /\
              PrivateRegistryURL_range (Credentials d) = URL r).
  { intros Hne.
    destruct (PrivateRegistryURL_range_first _ Hne)
      as (l1 & r & l2 & Hd & Hl1 & Hr & Heq).
    exists l1, r, l2. split_and!; [done | | by apply MatchString_spec | done].
    eapply Forall_impl; [exact Hl1|]. intros r' Hr' Hsub.
    apply MatchString_spec in Hsub. simpl in Hr'. congruence. }
  destruct (PublicRegistryURL_range_public (Credentials d)) as [Hpub Hpubin].
  assert (Hpub' : ~ HasSubstring "127.0.0.1"
                    (PublicRegistryURL_range (Credentials d))).
  { intros Hsub. apply MatchString_spec in Hsub. congruence. }
  split_and!; [ | done | done | done | | done | done].
  - split.
    + intros Hempty. apply Forall_forall. intros r Hin Hsub.
      apply MatchString_spec in Hsub.
      assert (Hex : Exists (fun r => MatchString (URL r) = true) (Credentials d))
        by (apply Exists_exists; eauto).
      clear Hin Hsub Hfirst Hpub Hpubin Hpub'.
      induction Hex as [r' rs Hr' | r' rs _ IH]; simpl in Hempty.
      * rewrite Hr' in Hempty. rewrite Hempty in Hr'. done.
      * destruct (MatchString (URL r')) eqn:Hm; [|by apply IH].
        rewrite Hempty in Hm. done.
    + intros Hno. apply PrivateRegistryURL_range_none.
      eapply Forall_impl; [exact Hno|]. intros r Hr. simpl in Hr.
      destruct (MatchString (URL r)) eqn:Hm; [|done].
      by apply MatchString_spec in Hm.
  - intros Hne Heq. destruct (Hfirst Hne) as (_ & r & _ & _ & _ & Hr & Hp).
    apply Hpub'. rewrite <- Heq, Hp. exact Hr.
Qed.


End WithDeps.

Section WithSecrets.
Context `{S : SecretDeps}.

Lemma GetConnectionDetails_range_map entries credentials :
  GetConnectionDetails_range entries credentials =
  credentials ++ (credentialOf <$> entries).
Proof.
  revert credentials. induction entries as [|[url auth] rest IH];
    intros credentials; simpl.
  - by rewrite app_nil_r.
  - rewrite IH. by rewrite <- app_assoc.
Qed.

Lemma credentialOf_makeAuth r : credentialOf (URL r, makeAuth r) = r.
Proof. by destruct r. Qed.

(** Reading back a docker config built from credentials with pairwise
    different URLs. *)
Lemma credentials_read_back (d : ConnectionDetails) (cfg : DockerConfigJSON) :
  NoDup (URL <$> Credentials d) ->
  ConnectionDetails_DockerConfigJSON d = Ok cfg ->
  GetConnectionDetails_range (rangeAuths (Auths cfg)) [] ≡ₚ Credentials d.
Proof.
  unfold ConnectionDetails_DockerConfigJSON. intros Hnd Hrun.
  assert (Hfresh : Forall (fun r => Auths {| Auths := ∅ |} !! URL r = None)
                     (Credentials d)).
  { apply Forall_forall. intros r _. apply lookup_empty. }
  pose proof (range_to_list _ _ _ Hnd Hfresh Hrun) as Hl.
  simpl in Hl. rewrite map_to_list_empty, app_nil_r in Hl.
  rewrite GetConnectionDetails_range_map. simpl.
  rewrite rangeAuths_perm, Hl. rewrite <- list_fmap_compose.
  assert (Hid : forall l : list RegistryCredentials,
            credentialOf ∘ (fun r => (URL r, makeAuth r)) <$> l = l).
  { induction l as [|r l IH]; [done|].
    rewrite fmap_cons, IH. simpl. by rewrite credentialOf_makeAuth. }
  by rewrite Hid.
Qed.

(** With pairwise different URLs, the credentials read back from the
    docker config that [DockerConfigJSON] built are the credentials it was
    built from, in the order in which the map happens to be visited. *)
Theorem DockerConfigJSON_roundtrip (d : ConnectionDetails)
    (cfg : DockerConfigJSON) :
  NoDup (URL <$> Credentials d) ->
  ConnectionDetails_DockerConfigJSON d = Ok cfg ->
  GetConnectionDetails_range (rangeAuths (Auths cfg)) [] ≡ₚ Credentials d.
Proof. apply credentials_read_back. Qed.

(** [Store] asks for nothing to be created when a credential has an empty
    URL: it fails with the error of [DockerConfigJSON] and leaves the
    cluster as it was. *)
Theorem Store_empty_url (d : ConnectionDetails)
    (secretNamespace secretName : string) (w : W) :
  Exists (fun r => URL r = "") (Credentials d) ->
  Store d secretNamespace secretName w =
  (Err (errors_New "url must be specified"), w).
Proof.
  intros Hex. unfold Store, ConnectionDetails_DockerConfigJSON.
  by rewrite (range_empty_Err _ _ Hex).
Qed.

(** What [Store] writes, [GetConnectionDetails] reads back.  Take details
    with pairwise different URLs whose docker config [cfg] is encoded as
    the document [doc], and let decoding undo the encoding.  Then [Store]
    is the request to create the secret [storeSecret] with that document,
    and whenever a later read of the secret returns the document as data
    and the namespace annotation as sent, [GetConnectionDetails] returns
    the namespace stored and the credentials stored, in some order. *)
Theorem Store_GetConnectionDetails (d : ConnectionDetails)
    (secretNamespace secretName : string) (cfg : DockerConfigJSON)
    (doc : Bytes) :
  NoDup (URL <$> Credentials d) ->
  ConnectionDetails_DockerConfigJSON d = Ok cfg ->
  json_Marshal cfg = Ok doc ->
  json_Unmarshal doc = Ok cfg ->
  (forall w,
     Store d secretNamespace secretName w =
     Secrets_Create secretNamespace (storeSecret d secretName doc) w) /\
  (forall w2 w3 secret,
     cluster_GetSecret secretNamespace secretName w2 = (Ok secret, w3) ->
     Data secret !! ".dockerconfigjson" = Some doc ->
     Annotations secret !! RegistrySecretNamespaceAnnotationKey
       = Some (Namespace d) ->
     exists d',
       GetConnectionDetails secretNamespace secretName w2 = (Ok d', w3) /\
       Namespace d' = Namespace d /\
       Credentials d' ≡ₚ Credentials d).
Proof.
  intros Hnd Hcfg Hdoc Hjson. split.
  - intros w. unfold Store. rewrite Hcfg, Hdoc.
    by destruct (Secrets_Create _ _ w) as [[created|e] w'].
  - intros w2 w3 secret Hget Hdata Hann.
    unfold GetConnectionDetails. rewrite Hget, Hdata. simpl.
    rewrite Hjson. eexists. split; [reflexivity|]. simpl. split.
    + by rewrite Hann.
    + by apply credentials_read_back.
Qed.

End WithSecrets.

(** ** The theorems at work on concrete details *)

Lemma DockerConfigJSON_keys_witness :
  exists cfg,
    @ConnectionDetails_DockerConfigJSON demoDeps oneLogin = Ok cfg /\
    is_Some (Auths cfg !! "registry.example.com") /\
    Auths cfg !! "" = None.
Proof.
  eexists. split; [reflexivity|].
  destruct (@DockerConfigJSON_keys demoDeps oneLogin _ eq_refl)
    as (Hkeys & _ & Hempty).
  split; [|exact Hempty]. apply Hkeys. eexists. split; [apply list_elem_of_here|done].
Defined.

Lemma registry_urls_witness :
  fst (@PrivateRegistryURL demoDeps localDetails)
  <> fst (@PublicRegistryURL demoDeps localDetails).
Proof.
  destruct (@registry_urls demoDeps localDetails) as (_ & _ & _ & _ & H & _).
  apply H. discriminate.
Defined.


Lemma DockerConfigJSON_roundtrip_witness :
  exists cfg,
    @ConnectionDetails_DockerConfigJSON demoDeps oneLogin = Ok cfg /\
    @GetConnectionDetails_range (@rangeAuths demoDeps demoSecretDeps (Auths cfg)) []
    ≡ₚ Credentials oneLogin.
Proof.
  eexists. split; [reflexivity|].
  apply (@DockerConfigJSON_roundtrip demoDeps demoSecretDeps oneLogin);
    [|reflexivity].
  apply NoDup_singleton.
Defined.

Lemma Store_empty_url_witness :
  @Store demoDeps demoSecretDeps namelessLogin "epinio" CredentialsSecretName ∅
  = (Err "url must be specified", ∅).
Proof.
  apply (@Store_empty_url demoDeps demoSecretDeps namelessLogin).
  apply Exists_cons_hd. reflexivity.
Defined.

(** Stored in the empty table and read back from the table that leaves. *)
Lemma Store_GetConnectionDetails_witness :
  let stored :=
    @Store demoDeps demoSecretDeps oneLogin "epinio" CredentialsSecretName ∅ in
  exists d',
    fst (@GetConnectionDetails demoDeps demoSecretDeps "epinio"
           CredentialsSecretName (snd stored)) = Ok d' /\
    Namespace d' = "apps" /\
    Credentials d' ≡ₚ Credentials oneLogin.
Proof.
  intros stored.
  destruct (@Store_GetConnectionDetails demoDeps demoSecretDeps oneLogin
              "epinio" CredentialsSecretName _ _
              (NoDup_singleton _) eq_refl eq_refl eq_refl)
    as [_ Hread].
  edestruct (Hread (snd stored) _ _ eq_refl) as (d' & Hget & Hns & Hcreds);
    [reflexivity | reflexivity |].
  exists d'. by rewrite Hget.
Defined.

End RegistryMore.

(* ===================================================================== *)
(** * Properties of package [gitea] *)
(* ===================================================================== *)

Module GiteaProofs.
Import Gitea.

(** Evaluate the call a statement is a case analysis of. *)
Ltac run_call H :=
  lazymatch type of H with
  | match ?x with _ => _ end =>
      let v := eval vm_compute in x in
      change x with v in H; cbv beta iota in H
  end.

Lemma HasPrefix_app p s : Registry.HasPrefix p (p +:+ s) = true.
Proof.
  induction p as [|a p IH]; simpl; [done|]. by rewrite Ascii.eqb_refl.
Qed.

Lemma dropBytes_app p s : dropBytes (String.length p) (p +:+ s) = s.
Proof. induction p as [|a p IH]; simpl; done. Qed.

Lemma TrimPrefix_app p s : TrimPrefix (p +:+ s) p = s.
Proof. unfold TrimPrefix. by rewrite HasPrefix_app, dropBytes_app. Qed.

Section WithDeps.
Context `{D : Deps}.

Lemma onlyHost_spec ingresses host :
  onlyHost ingresses = Ok host <->
  Items ingresses = [ {| Rules := [ {| Host := host |} ] |} ].
Proof.
  unfold onlyHost, first. destruct ingresses as [[|[rules] [|i2 items]]]; simpl;
    try (split; [done | by intros [=]]).
  destruct rules as [|[h] [|r2 rules]]; simpl;
    try (split; [done | by intros [=]]).
  split; [by intros [= ->] | by intros [= ->]].
Qed.

(** [getMainDomain] and [getGiteaURL] accept the same ingress lists: those
    with exactly one ingress that has exactly one rule.  On such a list
    the URL is the protocol, [://] and the host of that rule, and the
    domain is the host without a leading [gitea.]; so for a host
    [gitea.<domain>] the URL is [<protocol>://gitea.<domain>]. *)
Theorem gitea_ingress (config : Config) (w w' : W) (ingresses : IngressList) :
  ListIngress GiteaDeploymentID "app.kubernetes.io/name=gitea" w
    = (Ok ingresses, w') ->
  let single host :=
    Items ingresses = [ {| Rules := [ {| Host := host |} ] |} ] in
  (snd (fst (getMainDomain w)) = None <-> exists host, single host) /\
  (snd (fst (getGiteaURL config w)) = None <-> exists host, single host) /\
  (forall host, single host ->
     getMainDomain w = ((TrimPrefix host "gitea.", None), w') /\
     getGiteaURL config w
       = ((GiteaProtocol config +:+ "://" +:+ host, None), w')) /\
  (forall domain, single ("gitea." +:+ domain) ->
     getMainDomain w = ((domain, None), w') /\
     getGiteaURL config w
       = ((GiteaProtocol config +:+ "://gitea." +:+ domain, None), w')).
Proof.
  intros Hlist. cbv zeta.
  assert (Hsingle : forall host,
            Items ingresses = [ {| Rules := [ {| Host := host |} ] |} ] ->
            getMainDomain w = ((TrimPrefix host "gitea.", None), w') /\
            getGiteaURL config w
              = ((GiteaProtocol config +:+ "://" +:+ host, None), w')).
  { intros host Hs. apply onlyHost_spec in Hs.
    unfold getMainDomain, getGiteaURL. by rewrite Hlist, Hs. }
  assert (Hiff : forall (f : string -> string),
            (snd (fst (match onlyHost ingresses with
                       | Err err => (("", Some err), w')
                       | Ok host => ((f host, None), w')
                       end)) = None <->
             exists host,
               Items ingresses = [ {| Rules := [ {| Host := host |} ] |} ])).
  { intros f. destruct (onlyHost ingresses) as [host|err] eqn:Hh; simpl.
    - split; [|done]. intros _. exists host. by apply onlyHost_spec.
    - split; [done|]. intros [host Hs]. apply onlyHost_spec in Hs. congruence. }
  split_and!.
  - unfold getMainDomain. rewrite Hlist. apply (Hiff (fun h => TrimPrefix h "gitea.")).
  - unfold getGiteaURL. rewrite Hlist.
    apply (Hiff (fun h => GiteaProtocol config +:+ "://" +:+ h)).
  - exact Hsingle.
  - intros domain Hs. destruct (Hsingle _ Hs) as [Hd Hu].
    rewrite Hd, Hu, TrimPrefix_app. done.
Qed.

(** [getGiteaCredentials] reports an error only when the secret cannot be
    read.  When the secret is read but lacks the [username] or the
    [password] key, the result is two empty strings and a nil error: the
    error wrapped on those paths is nil, and wrapping nil gives nil. *)
Theorem getGiteaCredentials_spec (w : W) :
  match GetSecret TektonStagingNamespace GiteaCredentialsSecret w with
  | (Err err, w') =>
      getGiteaCredentials w =
      (("", "", Some (wrapped err "failed to read gitea credentials")), w')
  | (Ok s, w') =>
      snd (getGiteaCredentials w) = w' /\
      snd (fst (getGiteaCredentials w)) = None /\
      (forall username password,
         Data s !! "username" = Some username ->
         Data s !! "password" = Some password ->
         fst (fst (getGiteaCredentials w)) = (username, password)) /\
      (Data s !! "username" = None \/ Data s !! "password" = None ->
       fst (fst (getGiteaCredentials w)) = ("", ""))
  end.
Proof.
  unfold getGiteaCredentials.
  destruct (GetSecret TektonStagingNamespace GiteaCredentialsSecret w)
    as [[s|err] w']; [|done].
  destruct (Data s !! "username") as [u|]; [destruct (Data s !! "password") as [p|]|];
    simpl; split_and!; try done;
    try (by intros u' p' [= ->] [= ->]); try (by intros [|]).
Qed.

End WithDeps.

Lemma gitea_ingress_witness :
  @getMainDomain demoDeps tt = (("10.0.0.1.nip.io", None), tt) /\
  @getGiteaURL demoDeps {| GiteaProtocol := "https" |} tt
  = (("https://gitea.10.0.0.1.nip.io", None), tt).
Proof.
  destruct (@gitea_ingress demoDeps {| GiteaProtocol := "https" |} tt tt _ eq_refl)
    as (_ & _ & _ & H).
  exact (H "10.0.0.1.nip.io" eq_refl).
Defined.

(** The demo secret has a user name and no password. *)
Lemma getGiteaCredentials_spec_witness :
  @getGiteaCredentials demoDeps tt = (("", "", None), tt).
Proof.
  pose proof (@getGiteaCredentials_spec demoDeps tt) as H.
  run_call H. destruct H as (Hw & Herr & _ & Hmissing).
  destruct (@getGiteaCredentials demoDeps tt) as [[[u pw] e] w].
  simpl in *. subst. by rewrite (Hmissing (or_intror eq_refl)).
Defined.

End GiteaProofs.

(* ===================================================================== *)
(** * Properties of package [service] *)
(* ===================================================================== *)

Module ServiceProofs.
Import Service.

Section WithDeps.
Context `{D : Deps}.




End WithDeps.


End ServiceProofs.
